(** * Provider resolution and invocation layer of nanobot-rs

    Shallow embedding of [src/providers/litellm.rs], [src/providers/base.rs]
    and [src/agent/turn_guard.rs].

    Strings are Rocq [string]s, i.e. sequences of bytes.  All the scanning
    done by the source ([starts_with], [contains], [rsplit('/')], the
    brace scanner of [extract_json_object]) looks for ASCII characters only,
    and in UTF-8 no byte of a multi-byte character equals an ASCII byte, so
    the byte-level reading agrees with Rust's char-level one.  Lowercasing
    and white space follow Unicode where the result can reach these ASCII
    tests (see [Str.to_lower] and [Str.ws_seqs]). *)

From Stdlib Require Import Bool List Arith Lia String Ascii QArith.
Import ListNotations.
Open Scope string_scope.
Open Scope bool_scope.

(** ** String primitives ([str] methods used by the source) *)

Module Str.

(** [s.starts_with(p)] *)
Fixpoint starts_with (s p : string) {struct p} : bool :=
  match p, s with
  | EmptyString, _ => true
  | String _ _, EmptyString => false
  | String c p', String d s' => Ascii.eqb c d && starts_with s' p'
  end.

(** [s.contains(p)]: some suffix of [s] starts with [p]. *)
Fixpoint contains (s p : string) : bool :=
  starts_with s p ||
  match s with
  | EmptyString => false
  | String _ s' => contains s' p
  end.

Definition is_empty (s : string) : bool :=
  match s with EmptyString => true | _ => false end.

(** ASCII lowercase of one byte. *)
Definition lower_char (c : ascii) : ascii :=
  let n := nat_of_ascii c in
  if (65 <=? n)%nat && (n <=? 90)%nat then ascii_of_nat (n + 32)%nat else c.

(** Bytes of the two code points whose Unicode lowercase is (or starts
    with) an ASCII letter: U+212A KELVIN SIGN (E2 84 AA) lowercases to
    ["k"], U+0130 LATIN CAPITAL LETTER I WITH DOT ABOVE (C4 B0) to ["i"]
    followed by U+0307 (CC 87). *)
Definition b_E2 : ascii := ascii_of_nat 226.
Definition b_84 : ascii := ascii_of_nat 132.
Definition b_AA : ascii := ascii_of_nat 170.
Definition b_C4 : ascii := ascii_of_nat 196.
Definition b_B0 : ascii := ascii_of_nat 176.
Definition b_CC : ascii := ascii_of_nat 204.
Definition b_87 : ascii := ascii_of_nat 135.

(** [s.to_lowercase()] on UTF-8 bytes.  ASCII letters are lowered, and
    the Kelvin sign and the dotted capital I are mapped as Rust maps them.
    Every other non-ASCII code point is kept as is: its lowercase is again
    made of bytes 0x80 and above, so the source's [contains] tests against
    ASCII needles (model keywords, override patterns) cannot tell the two
    apart. *)
Fixpoint to_lower (s : string) : string :=
  match s with
  | EmptyString => EmptyString
  | String c s' =>
      let default := String (lower_char c) (to_lower s') in
      if Ascii.eqb c b_E2 then
        match s' with
        | String c2 (String c3 s3) =>
            if Ascii.eqb c2 b_84 && Ascii.eqb c3 b_AA
            then String "k" (to_lower s3) else default
        | _ => default
        end
      else if Ascii.eqb c b_C4 then
        match s' with
        | String c2 s2 =>
            if Ascii.eqb c2 b_B0
            then String "i" (String b_CC (String b_87 (to_lower s2)))
            else default
        | _ => default
        end
      else default
  end.

Definition slash : ascii := "/".

Fixpoint has_slash (s : string) : bool :=
  match s with
  | EmptyString => false
  | String c s' => Ascii.eqb c slash || has_slash s'
  end.

(** [s.rsplit('/').next().unwrap_or(s)]: the part after the last ['/'],
    or [s] itself when it has none ([rsplit] always yields an item). *)
Fixpoint last_segment (s : string) : string :=
  match s with
  | EmptyString => EmptyString
  | String c s' =>
      if has_slash s' then last_segment s'
      else if Ascii.eqb c slash then s' else s
  end.

(** [format!("{}/{}", a, b)] *)
Definition join_slash (a b : string) : string := a ++ String slash b.

(** [&s[n..]] *)
Definition drop (n : nat) (s : string) : string := substring n (String.length s - n) s.

(** The UTF-8 encodings of the code points with the Unicode White_Space
    property, i.e. those for which [char::is_whitespace] holds: U+0009 to
    U+000D, U+0020, U+0085, U+00A0, U+1680, U+2000 to U+200A, U+2028,
    U+2029, U+202F, U+205F and U+3000. *)
Definition byte1 (a : nat) : string := String (ascii_of_nat a) EmptyString.
Definition byte2 (a b : nat) : string := String (ascii_of_nat a) (byte1 b).
Definition byte3 (a b c : nat) : string := String (ascii_of_nat a) (byte2 b c).

Definition ws_seqs : list string :=
  map byte1 [9; 10; 11; 12; 13; 32]%nat
  ++ [byte2 194 133; byte2 194 160; byte3 225 154 128]%nat
  ++ map (byte3 226 128) [128; 129; 130; 131; 132; 133; 134; 135; 136; 137; 138;
                          168; 169; 175]%nat
  ++ [byte3 226 129 159; byte3 227 128 128]%nat.

(** The number of bytes of the white-space character [s] starts with,
    [0] when it starts with none.  No encoding above starts with a
    continuation byte (0x80 to 0xBF), and no encoding is a prefix of
    another, so at a character boundary this reads the next character. *)
Definition ws_len (s : string) : nat :=
  match find (starts_with s) ws_seqs with
  | Some w => String.length w
  | None => 0%nat
  end.

(** [s.trim_start()]: white-space characters are removed from the front.
    Each step consumes at least one byte, so [length s] is enough fuel. *)
Fixpoint trim_start_fuel (fuel : nat) (s : string) : string :=
  match fuel with
  | O => s
  | S f =>
      match ws_len s with
      | O => s
      | n => trim_start_fuel f (drop n s)
      end
  end.

Definition trim_start (s : string) : string := trim_start_fuel (String.length s) s.

(** [s.trim_end()], scanning forward: a white-space character is dropped
    when all that follows it trims to nothing; any other byte is kept
    (inside a multi-byte character [ws_len] is [0], as no white-space
    encoding starts with a continuation byte). *)
Fixpoint trim_end_fuel (fuel : nat) (s : string) : string :=
  match fuel with
  | O => s
  | S f =>
      match s with
      | EmptyString => EmptyString
      | String c s' =>
          match ws_len s with
          | O => String c (trim_end_fuel f s')
          | n =>
              let r := trim_end_fuel f (drop n s) in
              if is_empty r then EmptyString else substring 0 n s ++ r
          end
      end
  end.

Definition trim_end (s : string) : string := trim_end_fuel (String.length s) s.

(** [s.trim()] *)
Definition trim (s : string) : string := trim_end (trim_start s).

(** [s.replace(from, to)]: every non-overlapping occurrence of [from],
    scanned left to right, is replaced by [to].  The fuel is the length of
    [s]; every step consumes at least one byte.  An empty [from] (never
    used by the source) is left unchanged. *)
Fixpoint replace_fuel (fuel : nat) (s from to : string) : string :=
  match fuel with
  | O => s
  | S fuel' =>
      match s with
      | EmptyString => EmptyString
      | String c s' =>
          if negb (is_empty from) && starts_with s from
          then to ++ replace_fuel fuel' (substring (length from) (length s - length from) s) from to
          else String c (replace_fuel fuel' s' from to)
      end
  end.

Definition replace (s from to : string) : string :=
  replace_fuel (length s) s from to.

End Str.

(** ** Provider catalog ([ProviderSpec], [PROVIDERS]) *)

(** Temperatures are [f32] in the source; the code only copies them, so
    they are modelled as rationals. *)
Definition f32 := Q.

Record ModelOverride := {
  pattern : string;
  temperature : option f32;
}.

Record EnvExtra := {
  extra_key : string;
  value_template : string;
}.

Record ProviderSpec := {
  name : string;
  keywords : list string;
  env_key : string;
  litellm_prefix : string;
  skip_prefixes : list string;
  is_gateway : bool;
  is_local : bool;
  detect_by_key_prefix : string;
  detect_by_base_keyword : string;
  default_api_base : string;
  strip_model_prefix : bool;
  env_extras : list EnvExtra;
  model_overrides : list ModelOverride;
}.

Definition openrouter : ProviderSpec := {|
  name := "openrouter"; keywords := ["openrouter"];
  env_key := "OPENROUTER_API_KEY"; litellm_prefix := "openrouter";
  skip_prefixes := []; is_gateway := true; is_local := false;
  detect_by_key_prefix := "sk-or-"; detect_by_base_keyword := "openrouter";
  default_api_base := "https://openrouter.ai/api/v1";
  strip_model_prefix := false; env_extras := []; model_overrides := [] |}.

Definition aihubmix : ProviderSpec := {|
  name := "aihubmix"; keywords := ["aihubmix"];
  env_key := "OPENAI_API_KEY"; litellm_prefix := "openai";
  skip_prefixes := []; is_gateway := true; is_local := false;
  detect_by_key_prefix := ""; detect_by_base_keyword := "aihubmix";
  default_api_base := "https://aihubmix.com/v1";
  strip_model_prefix := true; env_extras := []; model_overrides := [] |}.

Definition anthropic : ProviderSpec := {|
  name := "anthropic"; keywords := ["anthropic"; "claude"];
  env_key := "ANTHROPIC_API_KEY"; litellm_prefix := "";
  skip_prefixes := []; is_gateway := false; is_local := false;
  detect_by_key_prefix := ""; detect_by_base_keyword := "";
  default_api_base := "";
  strip_model_prefix := false; env_extras := []; model_overrides := [] |}.

Definition openai : ProviderSpec := {|
  name := "openai"; keywords := ["openai"; "gpt"];
  env_key := "OPENAI_API_KEY"; litellm_prefix := "";
  skip_prefixes := []; is_gateway := false; is_local := false;
  detect_by_key_prefix := ""; detect_by_base_keyword := "";
  default_api_base := "";
  strip_model_prefix := false; env_extras := []; model_overrides := [] |}.

Definition deepseek : ProviderSpec := {|
  name := "deepseek"; keywords := ["deepseek"];
  env_key := "DEEPSEEK_API_KEY"; litellm_prefix := "deepseek";
  skip_prefixes := ["deepseek/"]; is_gateway := false; is_local := false;
  detect_by_key_prefix := ""; detect_by_base_keyword := "";
  default_api_base := "";
  strip_model_prefix := false; env_extras := []; model_overrides := [] |}.

Definition gemini : ProviderSpec := {|
  name := "gemini"; keywords := ["gemini"];
  env_key := "GEMINI_API_KEY"; litellm_prefix := "gemini";
  skip_prefixes := ["gemini/"]; is_gateway := false; is_local := false;
  detect_by_key_prefix := ""; detect_by_base_keyword := "";
  default_api_base := "";
  strip_model_prefix := false; env_extras := []; model_overrides := [] |}.

Definition zhipu : ProviderSpec := {|
  name := "zhipu"; keywords := ["zhipu"; "glm"; "zai"];
  env_key := "ZAI_API_KEY"; litellm_prefix := "zai";
  skip_prefixes := ["zhipu/"; "zai/"; "openrouter/"; "hosted_vllm/"];
  is_gateway := false; is_local := false;
  detect_by_key_prefix := ""; detect_by_base_keyword := "";
  default_api_base := "";
  strip_model_prefix := false;
  env_extras := [{| extra_key := "ZHIPUAI_API_KEY"; value_template := "{api_key}" |}];
  model_overrides := [] |}.

Definition dashscope : ProviderSpec := {|
  name := "dashscope"; keywords := ["qwen"; "dashscope"];
  env_key := "DASHSCOPE_API_KEY"; litellm_prefix := "dashscope";
  skip_prefixes := ["dashscope/"; "openrouter/"]; is_gateway := false; is_local := false;
  detect_by_key_prefix := ""; detect_by_base_keyword := "";
  default_api_base := "";
  strip_model_prefix := false; env_extras := []; model_overrides := [] |}.

Definition moonshot : ProviderSpec := {|
  name := "moonshot"; keywords := ["moonshot"; "kimi"];
  env_key := "MOONSHOT_API_KEY"; litellm_prefix := "moonshot";
  skip_prefixes := ["moonshot/"; "openrouter/"]; is_gateway := false; is_local := false;
  detect_by_key_prefix := ""; detect_by_base_keyword := "";
  default_api_base := "https://api.moonshot.ai/v1";
  strip_model_prefix := false;
  env_extras := [{| extra_key := "MOONSHOT_API_BASE"; value_template := "{api_base}" |}];
  model_overrides := [{| pattern := "kimi-k2.5"; temperature := Some 1%Q |}] |}.

Definition minimax : ProviderSpec := {|
  name := "minimax"; keywords := ["minimax"];
  env_key := "MINIMAX_API_KEY"; litellm_prefix := "minimax";
  skip_prefixes := ["minimax/"; "openrouter/"]; is_gateway := false; is_local := false;
  detect_by_key_prefix := ""; detect_by_base_keyword := "";
  default_api_base := "https://api.minimax.io/v1";
  strip_model_prefix := false; env_extras := []; model_overrides := [] |}.

Definition vllm : ProviderSpec := {|
  name := "vllm"; keywords := ["vllm"];
  env_key := "HOSTED_VLLM_API_KEY"; litellm_prefix := "hosted_vllm";
  skip_prefixes := []; is_gateway := false; is_local := true;
  detect_by_key_prefix := ""; detect_by_base_keyword := "";
  default_api_base := "";
  strip_model_prefix := false; env_extras := []; model_overrides := [] |}.

Definition groq : ProviderSpec := {|
  name := "groq"; keywords := ["groq"];
  env_key := "GROQ_API_KEY"; litellm_prefix := "groq";
  skip_prefixes := ["groq/"]; is_gateway := false; is_local := false;
  detect_by_key_prefix := ""; detect_by_base_keyword := "";
  default_api_base := "";
  strip_model_prefix := false; env_extras := []; model_overrides := [] |}.

Definition PROVIDERS : list ProviderSpec :=
  [openrouter; aihubmix; anthropic; openai; deepseek; gemini; zhipu;
   dashscope; moonshot; minimax; vllm; groq].

(** ** Lookups *)

(** [PROVIDERS.iter().find(..)] *)
Fixpoint find_first {A} (f : A -> bool) (l : list A) : option A :=
  match l with
  | [] => None
  | x :: l' => if f x then Some x else find_first f l'
  end.

Definition find_by_name (n : string) : option ProviderSpec :=
  find_first (fun spec => String.eqb spec.(name) n) PROVIDERS.

Definition model_matches (model_lower : string) (spec : ProviderSpec) : bool :=
  negb spec.(is_gateway) && negb spec.(is_local)
  && existsb (fun kw => Str.contains model_lower kw) spec.(keywords).

Definition find_by_model (model : string) : option ProviderSpec :=
  find_first (model_matches (Str.to_lower model)) PROVIDERS.

Definition gateway_detects (api_key api_base : option string) (spec : ProviderSpec) : bool :=
  let key_matches :=
    negb (Str.is_empty spec.(detect_by_key_prefix))
    && match api_key with Some k => Str.starts_with k spec.(detect_by_key_prefix) | None => false end in
  let base_matches :=
    negb (Str.is_empty spec.(detect_by_base_keyword))
    && match api_base with Some b => Str.contains b spec.(detect_by_base_keyword) | None => false end in
  key_matches || base_matches.

Definition find_gateway (provider_name api_key api_base : option string)
  : option ProviderSpec :=
  let explicit :=
    match provider_name with
    | Some n =>
        match find_by_name n with
        | Some spec => if spec.(is_gateway) || spec.(is_local) then Some spec else None
        | None => None
        end
    | None => None
    end in
  match explicit with
  | Some spec => Some spec
  | None => find_first (gateway_detects api_key api_base) PROVIDERS
  end.

(** ** [LiteLLMProvider] and [resolve_model] *)

Record LiteLLMProvider := {
  api_key : string;
  api_base : option string;
  default_model : string;
  gateway : option ProviderSpec;
}.

Definition resolve_model (gw : option ProviderSpec) (model : string) : string :=
  match gw with
  | Some g =>
      let normalized := if g.(strip_model_prefix) then Str.last_segment model else model in
      if Str.is_empty g.(litellm_prefix)
         || Str.starts_with normalized (g.(litellm_prefix) ++ "/")
      then normalized
      else Str.join_slash g.(litellm_prefix) normalized
  | None =>
      match find_by_model model with
      | Some spec =>
          if negb (Str.is_empty spec.(litellm_prefix))
             && negb (existsb (fun p => Str.starts_with model p) spec.(skip_prefixes))
          then Str.join_slash spec.(litellm_prefix) model
          else model
      | None => model
      end
  end.

(** [apply_model_overrides]: the [&mut f32] is returned. *)
Fixpoint first_override (model_lower : string) (rules : list ModelOverride) : option f32 :=
  match rules with
  | [] => None
  | rule :: rest =>
      match Str.contains model_lower rule.(pattern), rule.(temperature) with
      | true, Some temp => Some temp
      | _, _ => first_override model_lower rest
      end
  end.

Definition apply_model_overrides (model : string) (temp : f32) : f32 :=
  let model_lower := Str.to_lower model in
  match find_by_model model with
  | Some spec =>
      match first_override model_lower spec.(model_overrides) with
      | Some t => t
      | None => temp
      end
  | None => temp
  end.

(** ** Process environment, [set_env_var], [setup_env], [new] *)

Definition Env := string -> option string.

Definition env_set (env : Env) (k v : string) : Env :=
  fun k' => if String.eqb k' k then Some v else env k'.

Definition is_some {A} (o : option A) : bool :=
  match o with Some _ => true | None => false end.

Definition set_env_var (key value : string) (overwrite : bool) (env : Env) : Env :=
  if Str.is_empty key || Str.is_empty value then env
  else if negb overwrite && is_some (env key) then env
  else env_set env key value.

Definition extra_value (api_key effective_base : string) (extra : EnvExtra) : string :=
  Str.replace (Str.replace extra.(value_template) "{api_key}" api_key)
    "{api_base}" effective_base.

Definition set_extras (api_key effective_base : string) (extras : list EnvExtra)
  (env : Env) : Env :=
  fold_left (fun e extra =>
      set_env_var extra.(extra_key) (extra_value api_key effective_base extra) false e)
    extras env.

(** The descriptor [setup_env] provisions: the gateway, else the vendor
    matched by the model. *)
Definition env_spec (p : LiteLLMProvider) (model : string) : option ProviderSpec :=
  match p.(gateway) with
  | Some g => Some g
  | None => find_by_model model
  end.

Definition setup_env (p : LiteLLMProvider) (model : string) (env : Env) : Env :=
  match env_spec p model with
  | None => env
  | Some spec =>
      let env1 :=
        if negb (Str.is_empty spec.(env_key))
        then set_env_var spec.(env_key) p.(api_key) (is_some p.(gateway)) env
        else env in
      let effective_base :=
        match p.(api_base) with Some b => b | None => spec.(default_api_base) end in
      set_extras p.(api_key) effective_base spec.(env_extras) env1
  end.

(** [LiteLLMProvider::new]; the extra headers play no part here and are
    left out.  Returns the provider and the process environment after
    construction. *)
Definition new (api_key0 : string) (api_base0 : option string) (default_model0 : string)
  (provider_name : option string) (env : Env) : LiteLLMProvider * Env :=
  let gw := find_gateway provider_name
              (if Str.is_empty api_key0 then None else Some api_key0) api_base0 in
  let provider := {| api_key := api_key0; api_base := api_base0;
                     default_model := default_model0; gateway := gw |} in
  let env' := if negb (Str.is_empty provider.(api_key))
              then setup_env provider provider.(default_model) env
              else env in
  (provider, env').

(** ** JSON values ([serde_json::Value]) and responses *)

Set Warnings "-register-all".
Inductive Value :=
| VNull
| VBool (b : bool)
| VNumber (q : Q)
| VString (s : string)
| VArray (l : list Value)
| VObject (m : list (string * Value)).

(** [serde_json::Map<String, Value>] *)
Definition Map := list (string * Value).

Fixpoint map_get (m : Map) (k : string) : option Value :=
  match m with
  | [] => None
  | (k', v) :: m' => if String.eqb k' k then Some v else map_get m' k
  end.

(** [Value::as_object] *)
Definition as_object (v : Value) : option Map :=
  match v with VObject m => Some m | _ => None end.

Definition is_object (v : Value) : bool := is_some (as_object v).

(** [Value::get] with a string key *)
Definition value_get (v : Value) (k : string) : option Value :=
  match v with VObject m => map_get m k | _ => None end.

(** [Value::as_bool] *)
Definition as_bool (v : Value) : option bool :=
  match v with VBool b => Some b | _ => None end.

Inductive Result (A : Type) :=
| Ok (a : A)
| Err (e : string).
Arguments Ok {A} a.
Arguments Err {A} e.

Record ToolCallRequest := {
  tc_id : string;
  tc_name : string;
  arguments : Map;
}.

Record LLMResponse := {
  content : option string;
  tool_calls : list ToolCallRequest;
  finish_reason : string;
  usage : Map;
  reasoning_content : option string;
}.

(** Backend (litellm-rs) response types, with the fields the source reads.
    A tool-result part carries its content already rendered by
    [to_string()]; a finish reason is kept as its serialised string. *)
Inductive ContentPart :=
| PartText (text : string)
| PartToolResult (rendered : string)
| PartOther.

Inductive MessageContent :=
| ContentText (text : string)
| ContentParts (parts : list ContentPart).

Record FunctionCall := { fn_name : string; fn_arguments : string }.
Record BackendToolCall := { call_id : string; function : FunctionCall }.

Record BackendMessage := {
  msg_content : option MessageContent;
  thinking : option string;
  msg_tool_calls : option (list BackendToolCall);
}.

Record Choice := {
  message : BackendMessage;
  choice_finish_reason : option string;
}.

Record CompletionResponse := {
  choices : list Choice;
  resp_usage : option Map;
}.

Definition nl : string := String (ascii_of_nat 10) EmptyString.

Fixpoint join_nl (l : list string) : string :=
  match l with
  | [] => EmptyString
  | [x] => x
  | x :: l' => x ++ nl ++ join_nl l'
  end.

Definition content_to_text (c : MessageContent) : string :=
  match c with
  | ContentText t => t
  | ContentParts parts =>
      join_nl (flat_map (fun part =>
                  match part with
                  | PartText t => [t]
                  | PartToolResult r => [r]
                  | PartOther => []
                  end) parts)
  end.

(** ** [LLMProvider::chat] for [LiteLLMProvider]

    [serde_json::from_str::<Value>] is the external JSON parser; it is a
    parameter of the development.  The remote [completion] call of
    litellm-rs is a parameter too: it receives the model identifier (the
    converted messages and the call options are the same for both
    attempts). *)

Section Chat.

Variable parse_json : string -> option Value.

(** The [ToolCallRequest] built from one backend tool call. *)
Definition convert_tool_call (call : BackendToolCall) : ToolCallRequest :=
  let args :=
    match match parse_json call.(function).(fn_arguments) with
          | Some v => as_object v
          | None => None
          end with
    | Some m => m
    | None => [("raw", VString call.(function).(fn_arguments))]
    end in
  {| tc_id := call.(call_id); tc_name := call.(function).(fn_name); arguments := args |}.

(** Normalisation of a successful completion. *)
Definition normalize_response (response : CompletionResponse) : LLMResponse :=
  match response.(choices) with
  | [] =>
      {| content := None; tool_calls := []; finish_reason := "stop";
         usage := []; reasoning_content := None |}
  | choice :: _ =>
      {| content := option_map content_to_text choice.(message).(msg_content);
         reasoning_content := choice.(message).(thinking);
         tool_calls := map convert_tool_call
                         (match choice.(message).(msg_tool_calls) with
                          | Some l => l | None => [] end);
         finish_reason := match choice.(choice_finish_reason) with
                          | Some r => r | None => "stop" end;
         usage := match response.(resp_usage) with Some u => u | None => [] end |}
  end.

Variable completion : string -> Result CompletionResponse.

(** The invocation with its fallback.  Returns the model identifiers sent
    to [completion], in order, and the outcome. *)
Definition invoke (selected_model resolved_model : string)
  : list string * Result CompletionResponse :=
  match completion resolved_model with
  | Ok resp => ([resolved_model], Ok resp)
  | Err primary_err =>
      if negb (String.eqb resolved_model selected_model) then
        match completion selected_model with
        | Ok resp => ([resolved_model; selected_model], Ok resp)
        | Err fallback_err =>
            ([resolved_model; selected_model],
             Err ("failed to call litellm-rs completion: primary=" ++ primary_err
                  ++ "; fallback=" ++ fallback_err))
        end
      else ([resolved_model], Err ("failed to call litellm-rs completion: " ++ primary_err))
  end.

(** [chat]: the effective temperature is what the options carry; it is
    returned alongside for inspection. *)
Definition chat (p : LiteLLMProvider) (model : option string) (temp : f32)
  : f32 * list string * Result LLMResponse :=
  let selected_model := match model with Some m => m | None => p.(default_model) end in
  let resolved_model := resolve_model p.(gateway) selected_model in
  let effective_temperature := apply_model_overrides resolved_model temp in
  let (calls, outcome) := invoke selected_model resolved_model in
  (effective_temperature, calls,
   match outcome with
   | Ok resp => Ok (normalize_response resp)
   | Err e => Err e
   end).

End Chat.

(** ** [TurnGuard] classifier ([src/agent/turn_guard.rs]) *)

Section Classifier.

Variable parse_json : string -> option Value.

Definition backslash : ascii := "\".
Definition dquote : ascii := ascii_of_nat 34.
Definition lbrace : ascii := "{".
Definition rbrace : ascii := "}".

(** The inner loop of [extract_json_object] run over [text[start..]]:
    [Some end] when the brace opened at offset 0 is closed at byte
    [end - 1] (the loop then tries the candidate and breaks), [None] when
    the loop breaks on an unmatched ['}'] or runs out of text. *)
Fixpoint scan (s : string) (offset depth : nat) (in_string escaped : bool) : option nat :=
  match s with
  | EmptyString => None
  | String c s' =>
      if in_string then
        if escaped then scan s' (S offset) depth in_string false
        else if Ascii.eqb c backslash then scan s' (S offset) depth in_string true
        else if Ascii.eqb c dquote then scan s' (S offset) depth false escaped
        else scan s' (S offset) depth in_string escaped
      else if Ascii.eqb c dquote then scan s' (S offset) depth true escaped
      else if Ascii.eqb c lbrace then scan s' (S offset) (S depth) in_string escaped
      else if Ascii.eqb c rbrace then
        match depth with
        | O => None
        | S d =>
            match d with
            | O => Some (S offset)
            | S _ => scan s' (S offset) d in_string escaped
            end
        end
      else scan s' (S offset) depth in_string escaped
  end.

(** The outer loop over the start positions of [text]. *)
Fixpoint scan_starts (s : string) : option Value :=
  match s with
  | EmptyString => None
  | String c s' =>
      if Ascii.eqb c lbrace then
        match scan s 0 0 false false with
        | Some n =>
            match parse_json (substring 0 n s) with
            | Some v => if is_object v then Some v else scan_starts s'
            | None => scan_starts s'
            end
        | None => scan_starts s'
        end
      else scan_starts s'
  end.

Definition extract_json_object (text : string) : option Value :=
  match parse_json (Str.trim text) with
  | Some v => if is_object v then Some v else scan_starts text
  | None => scan_starts text
  end.

Definition classifier_system : string :=
  "You are a strict classifier. Return ONLY one JSON object with boolean key claims_no_tools. If the assistant response explicitly or implicitly claims that tools are unavailable in the current runtime, set claims_no_tools=true. Otherwise false. Do not output markdown or extra text.".

Definition classifier_messages (tools_text content0 : string) : list Value :=
  [VObject [("role", VString "system"); ("content", VString classifier_system)];
   VObject [("role", VString "user");
            ("content", VString ("Runtime tools are available: " ++ tools_text ++ "." ++ nl
                                 ++ "Assistant response:" ++ nl ++ content0))]].

(** The provider's [chat] as seen by the guard: messages, model,
    max tokens and temperature (no tools). *)
Variable provider_chat : list Value -> option string -> nat -> f32 -> Result LLMResponse.

Definition response_claims_no_tools (model tools_text content0 : string) : bool :=
  if Str.is_empty (Str.trim content0) || String.eqb tools_text "(none)" then false
  else
    match provider_chat (classifier_messages tools_text content0) (Some model) 120 0%Q with
    | Err _ => false
    | Ok response =>
        match response.(content) with
        | None => false
        | Some classifier_text =>
            match extract_json_object classifier_text with
            | None => false
            | Some value =>
                match match value_get value "claims_no_tools" with
                      | Some v => as_bool v
                      | None => None
                      end with
                | Some b => b
                | None => false
                end
            end
        end
    end.

End Classifier.

(** * Further embedded code *)

(** ** More [str] methods *)

Module Str2.
Import Str.

(** [s.split(sep)] for a non-empty [sep]: the pieces between the
    leftmost non-overlapping occurrences of [sep]. *)
Fixpoint split_fuel (fuel : nat) (sep s : string) : list string :=
  match fuel with
  | O => [s]
  | S f =>
      match s with
      | EmptyString => [EmptyString]
      | String c s' =>
          if negb (is_empty sep) && starts_with s sep
          then EmptyString :: split_fuel f sep (drop (String.length sep) s)
          else match split_fuel f sep s' with
               | [] => [String c EmptyString]
               | x :: xs => String c x :: xs
               end
      end
  end.

Definition split (s sep : string) : list string := split_fuel (String.length s) sep s.

(** [items.join(sep)] *)
Fixpoint join (sep : string) (l : list string) : string :=
  match l with
  | [] => EmptyString
  | [x] => x
  | x :: l' => x ++ sep ++ join sep l'
  end.

Definition has_char (a : ascii) (s : string) : bool :=
  existsb (Ascii.eqb a) (list_ascii_of_string s).

(** [s.split_once(c)] *)
Fixpoint split_once (s : string) (a : ascii) : option (string * string) :=
  match s with
  | EmptyString => None
  | String c s' =>
      if Ascii.eqb c a then Some (EmptyString, s')
      else match split_once s' a with
           | Some (l, r) => Some (String c l, r)
           | None => None
           end
  end.

(** [s.split_whitespace()]: the maximal runs of characters that are not
    white space; [cur] is the run being read.  Each step consumes at least
    one byte. *)
Fixpoint split_ws_fuel (fuel : nat) (s cur : string) : list string :=
  let flush := if is_empty cur then [] else [cur] in
  match fuel with
  | O => flush
  | S f =>
      match s with
      | EmptyString => flush
      | String c s' =>
          match ws_len s with
          | O => split_ws_fuel f s' (cur ++ String c EmptyString)
          | n => flush ++ split_ws_fuel f (drop n s) EmptyString
          end
      end
  end.

Definition split_whitespace (s : string) : list string :=
  split_ws_fuel (String.length s) s EmptyString.

(** [s.lines()]: split at ['\n'], a final empty piece dropped, one
    trailing ['\r'] removed from each line. *)
Definition cr : ascii := ascii_of_nat 13.

Fixpoint strip_cr (s : string) : string :=
  match s with
  | EmptyString => EmptyString
  | String c EmptyString => if Ascii.eqb c cr then EmptyString else s
  | String c s' => String c (strip_cr s')
  end.

Fixpoint drop_last_empty (l : list string) : list string :=
  match l with
  | [] => []
  | [x] => if is_empty x then [] else [x]
  | x :: l' => x :: drop_last_empty l'
  end.

Definition lines (s : string) : list string :=
  map strip_cr (drop_last_empty (split s nl)).

(** [c.is_ascii_digit()] *)
Definition is_ascii_digit (c : ascii) : bool :=
  let n := nat_of_ascii c in (48 <=? n)%nat && (n <=? 57)%nat.

Definition all_digits (s : string) : bool := forallb is_ascii_digit (list_ascii_of_string s).

End Str2.

(** ** [LiteLLMProvider::effective_api_base] *)

Definition effective_api_base (p : LiteLLMProvider) (model : string) : option string :=
  match p.(api_base) with
  | Some base => Some base
  | None =>
      match p.(gateway) with
      | Some g => if negb (Str.is_empty g.(default_api_base)) then Some g.(default_api_base)
                  else match find_by_model model with
                       | Some spec => if negb (Str.is_empty spec.(default_api_base))
                                      then Some spec.(default_api_base) else None
                       | None => None
                       end
      | None =>
          match find_by_model model with
          | Some spec => if negb (Str.is_empty spec.(default_api_base))
                         then Some spec.(default_api_base) else None
          | None => None
          end
      end
  end.


(** ** [TurnGuard] *)

Record TurnGuard := {
  guard_model : string;
  tools_text : string;
  max_iterations : nat;
}.

Definition should_retry_after_false_no_tools_claim (parse_json : string -> option Value)
  (provider_chat : list Value -> option string -> nat -> f32 -> Result LLMResponse)
  (tg : TurnGuard) (content0 : option string) (iteration : nat) : bool :=
  if (tg.(max_iterations) <=? iteration)%nat || String.eqb tg.(tools_text) "(none)" then false
  else match content0 with
       | None => false
       | Some text =>
           response_claims_no_tools parse_json provider_chat tg.(guard_model) tg.(tools_text) text
       end.

Definition tools_header : string := "当前运行时可用工具：" ++ nl ++ "- ".
Definition tools_footer : string :=
  nl ++ "如需执行网络访问、命令执行、文件操作或定时任务，请直接给出目标。".

Definition tools_available_response (tg : TurnGuard) : string :=
  if String.eqb tg.(tools_text) "(none)" then "当前运行时未注册任何工具。"
  else let items := Str2.join (nl ++ "- ") (Str2.split tg.(tools_text) ", ") in
       tools_header ++ items ++ tools_footer.

(** ** [parse_state] ([src/service/windows.rs]) *)

Definition state_of_line (line : string) : option (option string) :=
  (* [None]: the line is skipped; [Some r]: the function returns [r]. *)
  if negb (Str.contains line "STATE") then None
  else Some (match Str2.split_once line ":"%char with
             | None => None
             | Some (_, rhs) =>
                 match Str2.split_whitespace rhs with
                 | [] => None
                 | t0 :: rest =>
                     if Str2.all_digits t0
                     then match rest with t1 :: _ => Some t1 | [] => None end
                     else Some t0
                 end
             end).

Fixpoint parse_state_lines (ls : list string) : option string :=
  match ls with
  | [] => None
  | line :: rest =>
      match state_of_line line with
      | None => parse_state_lines rest
      | Some r => r
      end
  end.

Definition parse_state (sc_output : string) : option string :=
  parse_state_lines (Str2.lines sc_output).

(** What a [STATE] line with [rhs] after its first colon yields: the first
    white-space token, or the second one after a numeric code. *)
Definition state_decision (rhs : string) : option string :=
  match Str2.split_whitespace rhs with
  | [] => None
  | t0 :: rest => if Str2.all_digits t0 then hd_error rest else Some t0
  end.

(** ** [MemoryStore] ([src/memory.rs])

    A file is missing, readable with its contents, or present but not
    readable as UTF-8 text ([read_to_string] fails). *)
Inductive FileState := Missing | Readable (s : string) | Unreadable.

Definition read_to_string_or_default (f : FileState) : string :=
  match f with Readable s => s | _ => EmptyString end.

(** [read_long_term] and [read_today] *)
Definition read_file (f : FileState) : string := read_to_string_or_default f.

(** [get_memory_context] from the long-term file and the file of the day. *)
Definition get_memory_context (memory_file today_file : FileState) : string :=
  let long_term := read_file memory_file in
  let today_notes := read_file today_file in
  let lt_part := if negb (Str.is_empty long_term)
                 then ["## Long-term Memory" ++ nl ++ long_term] else [] in
  let today_part := if negb (Str.is_empty today_notes)
                    then ["## Today's Notes" ++ nl ++ today_notes] else [] in
  let parts := List.app lt_part today_part in
  Str2.join (nl ++ nl) parts.

(** ** Statements of the specification, and concrete inputs *)

(** The detection rule of the Gateway Selector, in the claim's words. *)
Definition detects (api_key0 api_base0 : option string) (s : ProviderSpec) : Prop :=
  (s.(detect_by_key_prefix) <> "" /\
   exists k, api_key0 = Some k /\ Str.starts_with k s.(detect_by_key_prefix) = true)
  \/
  (s.(detect_by_base_keyword) <> "" /\
   exists b, api_base0 = Some b /\ Str.contains b s.(detect_by_base_keyword) = true).

(** [n] is what is left of [m] after removing everything up to and
    including its last ['/'] ([m] itself when it has none). *)
Definition after_last_slash (m n : string) : Prop :=
  (Str.has_slash m = false /\ n = m) \/
  (exists pre, m = pre ++ String Str.slash n /\ Str.has_slash n = false).

Definition gateway_step1 (g : ProviderSpec) (n : string) : string :=
  if String.eqb g.(litellm_prefix) "" || Str.starts_with n (g.(litellm_prefix) ++ "/")
  then n
  else g.(litellm_prefix) ++ "/" ++ n.

Definition effective_base (p : LiteLLMProvider) (spec : ProviderSpec) : string :=
  match p.(api_base) with Some b => b | None => spec.(default_api_base) end.

Definition env0 : Env := fun k => if String.eqb k "MOONSHOT_API_KEY" then Some "old" else None.

Definition moonshot_provider : LiteLLMProvider :=
  {| api_key := "sk-new"; api_base := None; default_model := "kimi-k2.5"; gateway := None |}.

(** The Override Engine in the claim's words: the first rule of the
    matched vendor whose pattern occurs case-insensitively in the resolved
    identifier sets the temperature to its floor. *)
Definition overrides_as_specified (model : string) (temp : f32) : f32 :=
  match find_by_model model with
  | Some spec =>
      match find_first (fun r => Str.contains (Str.to_lower model) (Str.to_lower r.(pattern)))
              spec.(model_overrides) with
      | Some r => match r.(temperature) with Some f => f | None => temp end
      | None => temp
      end
  | None => temp
  end.

Definition failing_completion (m : string) : Result CompletionResponse :=
  if String.eqb m "qwen-plus" then Err "bad id" else Err "down".

(** The arguments the claim asks for: the parsed object, else the raw
    string under ["raw"]. *)
Definition expected_arguments (parse_json : string -> option Value) (args : string) : Map :=
  match parse_json args with
  | Some (VObject m) => m
  | _ => [("raw", VString args)]
  end.

Definition backend_tool_calls (resp : CompletionResponse) : list BackendToolCall :=
  match resp.(choices) with
  | [] => []
  | choice :: _ =>
      match choice.(message).(msg_tool_calls) with Some l => l | None => [] end
  end.

(** The value found by [extract_json_object] is the parse of a piece of
    the text, and is an object. *)
Definition parsed_infix (parse_json : string -> option Value) (text : string) (v : Value) : Prop :=
  exists pre mid post, text = pre ++ mid ++ post /\ parse_json mid = Some v
                       /\ is_object v = true.

Definition toy_reply : string :=
  String lbrace (String dquote ("claims_no_tools" ++ String dquote (":true" ++ String rbrace ""))).

Definition toy_parse (s : string) : option Value :=
  if String.eqb s toy_reply then Some (VObject [("claims_no_tools", VBool true)]) else None.

(** * Properties *)

(** ** Evaluation on the inputs of the source tests *)

Example resolve_qwen : resolve_model None "qwen-plus" = "dashscope/qwen-plus".
Proof. reflexivity. Qed.
Example resolve_qwen2 : resolve_model None "dashscope/qwen-plus" = "dashscope/qwen-plus".
Proof. reflexivity. Qed.
Example resolve_aihubmix :
  resolve_model (find_gateway None None (Some "https://aihubmix.com/v1"))
    "anthropic/claude-3-7-sonnet" = "openai/claude-3-7-sonnet".
Proof. reflexivity. Qed.

Example extract_plain : extract_json_object toy_parse toy_reply
  = Some (VObject [("claims_no_tools", VBool true)]).
Proof. reflexivity. Qed.

Example extract_embedded :
  extract_json_object toy_parse ("```json" ++ nl ++ toy_reply ++ nl ++ "```")
  = Some (VObject [("claims_no_tools", VBool true)]).
Proof. reflexivity. Qed.

Example classifier_positive :
  response_claims_no_tools toy_parse
    (fun _ _ _ _ => Ok {| content := Some ("Answer: " ++ toy_reply); tool_calls := [];
                          finish_reason := "stop"; usage := []; reasoning_content := None |})
    "m" "exec" "I cannot run commands here" = true.
Proof. reflexivity. Qed.

Example kimi_override : apply_model_overrides "moonshot/kimi-k2.5" (2 # 10) = 1%Q.
Proof. reflexivity. Qed.


(** ** String lemmas *)

Module StrFacts.
Import Str.

Lemma starts_with_app_same (p s q : string) :
  starts_with s q = true -> starts_with (p ++ s) (p ++ q) = true.
Proof.
  induction p as [|c p IH]; cbn [starts_with has_slash contains last_segment append to_lower]; [auto|].
  intros H. rewrite Ascii.eqb_refl. cbn [starts_with has_slash contains last_segment append to_lower]. auto.
Qed.

Lemma starts_with_slash_free (n p : string) :
  has_slash n = false -> starts_with n (p ++ String slash EmptyString) = false.
Proof.
  revert n. induction p as [|c p IH]; intros n Hn.
  - destruct n as [|d n]; cbn [starts_with has_slash contains last_segment append to_lower] in *; [reflexivity|].
    apply orb_false_iff in Hn as [Hd _].
    rewrite Ascii.eqb_sym, Hd. reflexivity.
  - destruct n as [|d n]; cbn [starts_with has_slash contains last_segment append to_lower] in *; [reflexivity|].
    apply orb_false_iff in Hn as [_ Hn].
    rewrite (IH n Hn). apply andb_false_r.
Qed.

Lemma last_segment_slash_free (s : string) : has_slash (last_segment s) = false.
Proof.
  induction s as [|c s IH]; cbn [starts_with has_slash contains last_segment append to_lower]; [reflexivity|].
  destruct (has_slash s) eqn:Hs; [exact IH|].
  destruct (Ascii.eqb c slash) eqn:Hc; [exact Hs|].
  cbn [starts_with has_slash contains last_segment append to_lower]. rewrite Hc, Hs. reflexivity.
Qed.

Lemma last_segment_id (s : string) : has_slash s = false -> last_segment s = s.
Proof.
  destruct s as [|c s]; cbn [starts_with has_slash contains last_segment append to_lower]; [reflexivity|].
  intros H. apply orb_false_iff in H as [Hc Hs]. rewrite Hs, Hc. reflexivity.
Qed.

Lemma has_slash_app_slash (p n : string) : has_slash (p ++ String slash n) = true.
Proof.
  induction p as [|c p IH]; cbn [starts_with has_slash contains last_segment append to_lower]; [reflexivity|]. rewrite IH. apply orb_true_r.
Qed.

Lemma last_segment_join (p n : string) :
  has_slash n = false -> last_segment (p ++ String slash n) = n.
Proof.
  intros Hn. induction p as [|c p IH]; cbn [starts_with has_slash contains last_segment append to_lower].
  - rewrite Hn. reflexivity.
  - rewrite has_slash_app_slash. exact IH.
Qed.

Lemma starts_with_app_slash (x b kw : string) :
  has_slash kw = false -> starts_with (x ++ String slash b) kw = starts_with x kw.
Proof.
  revert kw. induction x as [|c x IH]; intros kw Hkw.
  - destruct kw as [|d kw]; cbn [starts_with has_slash contains last_segment append to_lower] in *; [reflexivity|].
    apply orb_false_iff in Hkw as [Hd _]. rewrite Hd. reflexivity.
  - destruct kw as [|d kw]; cbn [starts_with has_slash contains last_segment append to_lower] in *; [reflexivity|].
    apply orb_false_iff in Hkw as [_ Hkw]. rewrite IH by exact Hkw. reflexivity.
Qed.

Lemma contains_app_slash (a b kw : string) :
  has_slash kw = false ->
  contains (a ++ String slash b) kw = contains a kw || contains b kw.
Proof.
  intros Hkw. induction a as [|c a IH].
  - change (EmptyString ++ String slash b) with (String slash b).
    change (contains (String slash b) kw)
      with (starts_with (String slash b) kw || contains b kw).
    destruct kw as [|d kw]; [reflexivity|].
    cbn [has_slash] in Hkw. apply orb_false_iff in Hkw as [Hd _].
    cbn [starts_with]. rewrite Hd. reflexivity.
  - change (contains (String c a ++ String slash b) kw)
      with (starts_with (String c (a ++ String slash b)) kw
            || contains (a ++ String slash b) kw).
    rewrite IH.
    change (String c (a ++ String slash b)) with (String c a ++ String slash b).
    rewrite (starts_with_app_slash (String c a) b kw Hkw).
    change (contains (String c a) kw) with (starts_with (String c a) kw || contains a kw).
    rewrite !orb_assoc. reflexivity.
Qed.

Lemma to_lower_slash (b : string) : to_lower (String slash b) = String slash (to_lower b).
Proof. reflexivity. Qed.

Lemma to_lower_cons1 (c : ascii) : to_lower (String c EmptyString) = String (lower_char c) EmptyString.
Proof. cbn [to_lower]. destruct (Ascii.eqb c b_E2); [|destruct (Ascii.eqb c b_C4)]; reflexivity. Qed.

Lemma to_lower_cons2 (c c2 : ascii) :
  to_lower (String c (String c2 EmptyString)) =
  let d := String (lower_char c) (to_lower (String c2 EmptyString)) in
  if Ascii.eqb c b_E2 then d
  else if Ascii.eqb c b_C4 then
    (if Ascii.eqb c2 b_B0 then String "i" (String b_CC (String b_87 EmptyString)) else d)
  else d.
Proof. reflexivity. Qed.

Lemma to_lower_cons3 (c c2 c3 : ascii) (s : string) :
  to_lower (String c (String c2 (String c3 s))) =
  let d := String (lower_char c) (to_lower (String c2 (String c3 s))) in
  if Ascii.eqb c b_E2 then
    (if Ascii.eqb c2 b_84 && Ascii.eqb c3 b_AA then String "k" (to_lower s) else d)
  else if Ascii.eqb c b_C4 then
    (if Ascii.eqb c2 b_B0 then String "i" (String b_CC (String b_87 (to_lower (String c3 s))))
     else d)
  else d.
Proof. reflexivity. Qed.

Lemma to_lower_cons_slash (c : ascii) (b : string) :
  to_lower (String c (String slash b)) = String (lower_char c) (to_lower (String slash b)).
Proof.
  destruct b as [|c3 b]; [rewrite to_lower_cons2 | rewrite to_lower_cons3]; cbv zeta;
    change (Ascii.eqb slash b_B0) with false; change (Ascii.eqb slash b_84) with false;
    destruct (Ascii.eqb c b_E2), (Ascii.eqb c b_C4); reflexivity.
Qed.

Lemma to_lower_app_slash_aux (n : nat) : forall a b, (String.length a <= n)%nat ->
  to_lower (a ++ String slash b) = to_lower a ++ String slash (to_lower b).
Proof.
  induction n as [|n IH]; intros a b Hl.
  - destruct a; [apply to_lower_slash | cbn in Hl; lia].
  - destruct a as [|c a]; [apply to_lower_slash|].
    cbn [String.length] in Hl.
    destruct a as [|c2 [|c3 a3]].
    + cbn [append]. rewrite to_lower_cons_slash, to_lower_cons1, to_lower_slash. reflexivity.
    + cbn [append]. rewrite (to_lower_cons3 c c2 slash b), (to_lower_cons2 c c2). cbv zeta.
      change (Ascii.eqb slash b_AA) with false. rewrite andb_false_r.
      pose proof (IH (String c2 EmptyString) b ltac:(cbn in Hl |- *; lia)) as H1.
      cbn [append] in H1. rewrite H1, to_lower_slash.
      destruct (Ascii.eqb c b_E2); [reflexivity|].
      destruct (Ascii.eqb c b_C4); [destruct (Ascii.eqb c2 b_B0)|]; reflexivity.
    + cbn [String.length] in Hl. cbn [append].
      rewrite (to_lower_cons3 c c2 c3 (a3 ++ String slash b)), (to_lower_cons3 c c2 c3 a3). cbv zeta.
      pose proof (IH a3 b ltac:(cbn in Hl |- *; lia)) as H1.
      pose proof (IH (String c3 a3) b ltac:(cbn in Hl |- *; lia)) as H2.
      pose proof (IH (String c2 (String c3 a3)) b ltac:(cbn in Hl |- *; lia)) as H3.
      cbn [append] in H2, H3. rewrite H3, H2, H1.
      destruct (Ascii.eqb c b_E2).
      * destruct (Ascii.eqb c2 b_84 && Ascii.eqb c3 b_AA); reflexivity.
      * destruct (Ascii.eqb c b_C4); [destruct (Ascii.eqb c2 b_B0)|]; reflexivity.
Qed.

(** Lowercasing splits at an ASCII ['/']. *)
Lemma to_lower_app_slash (a b : string) :
  to_lower (a ++ String slash b) = to_lower a ++ String slash (to_lower b).
Proof. apply (to_lower_app_slash_aux (String.length a)). apply le_n. Qed.

Lemma contains_empty (s : string) : contains s EmptyString = true.
Proof. destruct s; reflexivity. Qed.

End StrFacts.

(** ** Lemmas on [find_first] *)

Lemma find_first_some {A} (f : A -> bool) (l : list A) (x : A) :
  find_first f l = Some x -> In x l /\ f x = true.
Proof.
  induction l as [|y l IH]; simpl; [discriminate|].
  destruct (f y) eqn:Hy.
  - intros [= <-]. auto.
  - intros H. destruct (IH H). auto.
Qed.

Lemma find_first_ext_in {A} (f g : A -> bool) (l : list A) :
  (forall x, In x l -> f x = g x) -> find_first f l = find_first g l.
Proof.
  induction l as [|y l IH]; simpl; intros H; [reflexivity|].
  rewrite (H y (or_introl eq_refl)).
  destruct (g y); [reflexivity|]. apply IH. auto.
Qed.

(** ** Facts about the catalog, checked by evaluation *)

Ltac in_catalog H :=
  cbn [PROVIDERS In] in H;
  repeat match type of H with
         | _ \/ _ => let H' := fresh in destruct H as [H'|H]; [subst|]
         | False => destruct H
         end.

Lemma catalog_keywords_slash_free (t : ProviderSpec) (kw : string) :
  In t PROVIDERS -> In kw t.(keywords) -> Str.has_slash kw = false.
Proof.
  intros Ht Hkw. in_catalog Ht; simpl in Hkw;
    repeat match type of Hkw with
           | _ \/ _ => let H' := fresh in destruct Hkw as [H'|Hkw]; [subst; reflexivity|]
           | False => destruct Hkw
           end.
Qed.

Lemma catalog_prefix_lower (s : ProviderSpec) :
  In s PROVIDERS -> Str.to_lower s.(litellm_prefix) = s.(litellm_prefix).
Proof. intros Hs. in_catalog Hs; reflexivity. Qed.

(** No descriptor other than a vendor [s] matches the backend prefix of
    [s].  (The gateway [aihubmix] has prefix ["openai"], which the vendor
    [openai] matches; gateways are never found by [find_by_model].) *)
Lemma catalog_prefix_owned (s t : ProviderSpec) :
  In s PROVIDERS -> In t PROVIDERS -> s.(is_gateway) = false ->
  model_matches s.(litellm_prefix) t = true -> t = s.
Proof.
  intros Hs Ht Hg Hm. in_catalog Hs; in_catalog Ht;
    first [reflexivity | discriminate Hg | vm_compute in Hm; discriminate].
Qed.

(** A vendor with a backend prefix lists ["<prefix>/"] among its skip
    prefixes. *)
Lemma catalog_prefix_skipped (s : ProviderSpec) :
  In s PROVIDERS -> s.(is_gateway) = false -> s.(is_local) = false ->
  Str.is_empty s.(litellm_prefix) = false ->
  In (s.(litellm_prefix) ++ "/") s.(skip_prefixes).
Proof.
  intros Hs. in_catalog Hs; cbn; intros; try discriminate; auto 10.
Qed.

Lemma existsb_orb {A} (f g : A -> bool) (l : list A) :
  existsb (fun x => f x || g x) l = existsb f l || existsb g l.
Proof.
  induction l as [|x l IH]; cbn; [reflexivity|]. rewrite IH.
  destruct (f x), (g x), (existsb f l), (existsb g l); reflexivity.
Qed.

Lemma existsb_ext_in {A} (f g : A -> bool) (l : list A) :
  (forall x, In x l -> f x = g x) -> existsb f l = existsb g l.
Proof.
  induction l as [|x l IH]; cbn; intros H; [reflexivity|].
  rewrite (H x (or_introl eq_refl)), IH; auto.
Qed.

Lemma model_matches_join (p lm : string) (t : ProviderSpec) :
  In t PROVIDERS ->
  model_matches (p ++ String Str.slash lm) t = model_matches lm t || model_matches p t.
Proof.
  intros Ht. unfold model_matches.
  rewrite (existsb_ext_in _ (fun kw => Str.contains p kw || Str.contains lm kw)).
  - rewrite existsb_orb.
    destruct (is_gateway t), (is_local t); cbn; [reflexivity..|].
    apply orb_comm.
  - intros kw Hkw. apply StrFacts.contains_app_slash.
    exact (catalog_keywords_slash_free t kw Ht Hkw).
Qed.

(** Re-resolving a vendor-prefixed identifier finds the same vendor. *)
Lemma find_by_model_join (m : string) (s : ProviderSpec) :
  find_by_model m = Some s ->
  find_by_model (Str.join_slash s.(litellm_prefix) m) = Some s.
Proof.
  unfold find_by_model, Str.join_slash. intros H.
  destruct (find_first_some _ _ _ H) as [Hs Hms].
  assert (Hg : is_gateway s = false)
    by (unfold model_matches in Hms; destruct (is_gateway s); [discriminate|reflexivity]).
  rewrite StrFacts.to_lower_app_slash.
  rewrite (catalog_prefix_lower s Hs).
  rewrite <- H. apply find_first_ext_in. intros t Ht.
  rewrite (model_matches_join _ _ t Ht).
  destruct (model_matches (litellm_prefix s) t) eqn:Ep; [|apply orb_false_r].
  rewrite (catalog_prefix_owned s t Hs Ht Hg Ep), Hms. reflexivity.
Qed.

Lemma existsb_in {A} (f : A -> bool) (l : list A) (x : A) :
  In x l -> f x = true -> existsb f l = true.
Proof. intros Hx Hf. apply existsb_exists. eauto. Qed.

Lemma resolve_gateway_idempotent (g : ProviderSpec) (m : string) :
  resolve_model (Some g) (resolve_model (Some g) m) = resolve_model (Some g) m.
Proof.
  unfold resolve_model, Str.join_slash.
  destruct (strip_model_prefix g) eqn:Hstrip.
  - pose proof (StrFacts.last_segment_slash_free m) as Hn.
    destruct (Str.is_empty (litellm_prefix g)) eqn:He; cbn [orb].
    + rewrite (StrFacts.last_segment_id _ Hn). reflexivity.
    + rewrite (StrFacts.starts_with_slash_free _ _ Hn).
      rewrite (StrFacts.last_segment_join _ _ Hn).
      rewrite (StrFacts.starts_with_slash_free _ _ Hn). reflexivity.
  - destruct (Str.is_empty (litellm_prefix g)) eqn:He; cbn [orb]; [reflexivity|].
    destruct (Str.starts_with m (litellm_prefix g ++ "/")) eqn:Hs; [rewrite Hs; reflexivity|].
    rewrite (StrFacts.starts_with_app_same (litellm_prefix g) (String Str.slash m) "/");
      reflexivity.
Qed.

Lemma resolve_vendor_idempotent (m : string) :
  resolve_model None (resolve_model None m) = resolve_model None m.
Proof.
  unfold resolve_model at 2 3.
  destruct (find_by_model m) as [s|] eqn:Hf; [|unfold resolve_model; rewrite Hf; reflexivity].
  destruct (negb (Str.is_empty (litellm_prefix s))
            && negb (existsb (fun p => Str.starts_with m p) (skip_prefixes s))) eqn:Hc;
    [|unfold resolve_model; rewrite Hf, Hc; reflexivity].
  apply andb_true_iff in Hc as [He _]. apply negb_true_iff in He.
  destruct (find_first_some _ _ _ Hf) as [Hs Hms].
  unfold model_matches in Hms.
  destruct (is_gateway s) eqn:Hg; [discriminate|].
  destruct (is_local s) eqn:Hl; [discriminate|].
  unfold resolve_model. rewrite (find_by_model_join m s Hf), He.
  rewrite (existsb_in _ _ _ (catalog_prefix_skipped s Hs Hg Hl He)).
  - reflexivity.
  - unfold Str.join_slash.
    apply (StrFacts.starts_with_app_same (litellm_prefix s) (String Str.slash m) "/").
    reflexivity.
Qed.

(** C2: model name resolution is idempotent for every model identifier
    and every gateway choice: any descriptor (of the catalog or not) or no
    gateway at all. *)
Theorem resolve_model_idempotent (g : option ProviderSpec) (m : string) :
  resolve_model g (resolve_model g m) = resolve_model g m.
Proof.
  destruct g as [g|].
  - apply resolve_gateway_idempotent.
  - apply resolve_vendor_idempotent.
Qed.

(** ** Gateway selection *)

Lemma find_first_some_iff {A} (f : A -> bool) (l : list A) (x : A) :
  find_first f l = Some x <->
  exists pre post, l = (pre ++ x :: post)%list /\ f x = true
                   /\ Forall (fun t => f t = false) pre.
Proof.
  split.
  - induction l as [|y l IH]; cbn; [discriminate|].
    destruct (f y) eqn:Hy.
    + intros [= <-]. exists [], l. auto.
    + intros H. destruct (IH H) as (pre & post & -> & Hx & Hpre).
      exists (y :: pre), post. auto.
  - intros (pre & post & -> & Hx & Hpre).
    induction Hpre as [|y pre Hy _ IH]; cbn; [rewrite Hx; reflexivity|].
    rewrite Hy. exact IH.
Qed.

Lemma find_first_none_iff {A} (f : A -> bool) (l : list A) :
  find_first f l = None <-> Forall (fun t => f t = false) l.
Proof.
  induction l as [|y l IH]; cbn; [split; auto|].
  destruct (f y) eqn:Hy; split.
  - discriminate.
  - intros H. inversion H; congruence.
  - intros H. constructor; [exact Hy | apply IH, H].
  - intros H. inversion H. apply IH. assumption.
Qed.

Lemma find_by_name_catalog (s : ProviderSpec) :
  In s PROVIDERS -> find_by_name s.(name) = Some s.
Proof. intros Hs. in_catalog Hs; reflexivity. Qed.

Lemma is_empty_iff (s : string) : Str.is_empty s = true <-> s = "".
Proof. destruct s; cbn; split; congruence. Qed.

Lemma option_test_iff (o : option string) (f : string -> bool) :
  match o with Some k => f k | None => false end = true <->
  exists k, o = Some k /\ f k = true.
Proof.
  destruct o as [k|]; split.
  - eauto.
  - intros (k' & [= <-] & H). exact H.
  - discriminate.
  - intros (k' & H & _). discriminate H.
Qed.

Lemma gateway_detects_iff (k b : option string) (s : ProviderSpec) :
  gateway_detects k b s = true <-> detects k b s.
Proof.
  unfold gateway_detects, detects.
  rewrite orb_true_iff, !andb_true_iff, !negb_true_iff.
  rewrite (option_test_iff k (fun k => Str.starts_with k (detect_by_key_prefix s))).
  rewrite (option_test_iff b (fun b => Str.contains b (detect_by_base_keyword s))).
  assert (E : forall x, Str.is_empty x = false <-> x <> "").
  { intros x. rewrite <- is_empty_iff. destruct (Str.is_empty x); split; congruence. }
  rewrite !E. reflexivity.
Qed.

Lemma forall_detects_false (k b : option string) (l : list ProviderSpec) :
  Forall (fun t => gateway_detects k b t = false) l <-> Forall (fun t => ~ detects k b t) l.
Proof.
  split; apply Forall_impl; intros t H.
  - rewrite <- gateway_detects_iff, H. discriminate.
  - rewrite <- gateway_detects_iff in H. destruct (gateway_detects k b t); congruence.
Qed.

(** C3: the Gateway Selector.  An explicit name of a gateway-or-local
    catalog descriptor wins over any signal; otherwise the result is the
    first catalog descriptor whose non-empty key prefix starts the key or
    whose non-empty base keyword occurs in the base URL, and none when no
    descriptor is detected.  The key ["sk-or-abcdef"] alone selects
    OpenRouter. *)
Theorem find_gateway_selects (provider_name api_key0 api_base0 : option string) :
  (forall s, In s PROVIDERS -> s.(is_gateway) = true \/ s.(is_local) = true ->
     find_gateway (Some s.(name)) api_key0 api_base0 = Some s)
  /\
  ((forall nm s, provider_name = Some nm -> In s PROVIDERS -> s.(name) = nm ->
      s.(is_gateway) = false /\ s.(is_local) = false) ->
   (forall s, find_gateway provider_name api_key0 api_base0 = Some s <->
      exists pre post, PROVIDERS = (pre ++ s :: post)%list
        /\ detects api_key0 api_base0 s
        /\ Forall (fun t => ~ detects api_key0 api_base0 t) pre)
   /\
   (find_gateway provider_name api_key0 api_base0 = None <->
      Forall (fun t => ~ detects api_key0 api_base0 t) PROVIDERS))
  /\
  find_gateway None (Some "sk-or-abcdef") None = Some openrouter.
Proof.
  split; [|split].
  - intros s Hs Hgl. unfold find_gateway. rewrite (find_by_name_catalog s Hs).
    destruct Hgl as [H|H]; rewrite H; [reflexivity|]. rewrite orb_true_r. reflexivity.
  - intros Hno.
    assert (Hexp : match provider_name with
                   | Some n =>
                       match find_by_name n with
                       | Some spec => if is_gateway spec || is_local spec then Some spec else None
                       | None => None
                       end
                   | None => None
                   end = None).
    { destruct provider_name as [n|]; [|reflexivity].
      destruct (find_by_name n) as [s|] eqn:Hn; [|reflexivity].
      destruct (find_first_some _ _ _ Hn) as [Hs Hname].
      apply String.eqb_eq in Hname.
      destruct (Hno n s eq_refl Hs Hname) as [-> ->]. reflexivity. }
    unfold find_gateway. rewrite Hexp. split.
    + intros s. rewrite find_first_some_iff.
      split; intros (pre & post & Hl & Hd & Hpre); exists pre, post;
        (split; [exact Hl|]); split.
      * apply gateway_detects_iff, Hd.
      * apply forall_detects_false, Hpre.
      * apply gateway_detects_iff, Hd.
      * apply forall_detects_false, Hpre.
    + rewrite find_first_none_iff. apply forall_detects_false.
  - reflexivity.
Qed.

Lemma find_gateway_selects_witness :
  find_gateway None None (Some "http://localhost:8000/openrouter") = Some openrouter.
Proof.
  destruct (find_gateway_selects None None (Some "http://localhost:8000/openrouter"))
    as [_ [H _]].
  apply (proj1 (H (fun nm s E _ _ => ltac:(discriminate E)))).
  exists [], (List.tl PROVIDERS). split; [reflexivity|]. split.
  - right. split; [discriminate|]. eexists. split; [reflexivity|reflexivity].
  - constructor.
Defined.

(** ** Resolution through a gateway *)

Lemma last_segment_after_last_slash (m n : string) :
  after_last_slash m n -> Str.last_segment m = n.
Proof.
  intros [[Hm ->]|(pre & -> & Hn)].
  - apply StrFacts.last_segment_id, Hm.
  - apply StrFacts.last_segment_join, Hn.
Qed.

Lemma after_last_slash_exists (m : string) : after_last_slash m (Str.last_segment m).
Proof.
  induction m as [|c m IH].
  - left. split; reflexivity.
  - cbn [Str.last_segment].
    destruct (Str.has_slash m) eqn:Hm.
    + destruct IH as [[Hm' _]|(pre & Epre & Hn)]; [congruence|].
      right. exists (String c pre). rewrite Epre at 1.
      split; [reflexivity|exact Hn].
    + destruct (Ascii.eqb c Str.slash) eqn:Hc.
      * apply Ascii.eqb_eq in Hc. subst c. right. exists "". split; [reflexivity|exact Hm].
      * left. split; [|reflexivity]. cbn [Str.has_slash]. rewrite Hc, Hm. reflexivity.
Qed.

(** C4: with a gateway [g] selected, [resolve_model] is step 1 of the
    resolver: the identifier stripped up to its last ['/'] when [g] asks
    for it, then returned as is when the backend prefix is empty or
    already present, prefixed with ["<prefix>/"] otherwise.  With no key
    and no base URL pointing at OpenRouter (which comes first in the
    catalog), a base URL containing ["aihubmix"] resolves
    ["anthropic/claude-3-7-sonnet"] to ["openai/claude-3-7-sonnet"]. *)
Theorem resolve_model_gateway (g : ProviderSpec) (m : string) :
  (forall n, (if g.(strip_model_prefix) then after_last_slash m n else n = m) ->
     resolve_model (Some g) m = gateway_step1 g n)
  /\
  (forall k b, Str.contains b "aihubmix" = true -> Str.contains b "openrouter" = false ->
     (forall key, k = Some key -> Str.starts_with key "sk-or-" = false) ->
     resolve_model (find_gateway None k (Some b)) "anthropic/claude-3-7-sonnet"
     = "openai/claude-3-7-sonnet").
Proof.
  split.
  - intros n Hn. unfold resolve_model, gateway_step1, Str.join_slash.
    assert (E : (if strip_model_prefix g then Str.last_segment m else m) = n).
    { destruct (strip_model_prefix g).
      - apply last_segment_after_last_slash, Hn.
      - symmetry. exact Hn. }
    rewrite E.
    assert (Ee : Str.is_empty (litellm_prefix g) = String.eqb (litellm_prefix g) "")
      by (destruct (litellm_prefix g); reflexivity).
    rewrite Ee. reflexivity.
  - intros k b Hb Hnor Hk.
    assert (Hg : find_gateway None k (Some b) = Some aihubmix).
    { unfold find_gateway. cbn [PROVIDERS find_first].
      assert (H1 : gateway_detects k (Some b) openrouter = false).
      { unfold gateway_detects. cbn [detect_by_key_prefix detect_by_base_keyword openrouter].
        cbn [Str.is_empty negb andb]. rewrite Hnor, orb_false_r.
        destruct k as [key|]; [apply (Hk key eq_refl)|reflexivity]. }
      assert (H2 : gateway_detects k (Some b) aihubmix = true).
      { unfold gateway_detects. cbn [detect_by_key_prefix detect_by_base_keyword aihubmix].
        cbn [Str.is_empty negb andb]. rewrite Hb. apply orb_true_r. }
      rewrite H1, H2. reflexivity. }
    rewrite Hg. reflexivity.
Qed.

Lemma resolve_model_gateway_witness :
  resolve_model (Some aihubmix) "anthropic/claude-3-7-sonnet"
  = gateway_step1 aihubmix "claude-3-7-sonnet"
  /\ resolve_model (find_gateway None None (Some "https://aihubmix.com/v1"))
       "anthropic/claude-3-7-sonnet" = "openai/claude-3-7-sonnet".
Proof.
  destruct (resolve_model_gateway aihubmix "anthropic/claude-3-7-sonnet") as [H1 H2].
  split.
  - apply H1. cbn [strip_model_prefix aihubmix]. right. exists "anthropic".
    split; reflexivity.
  - apply H2; [reflexivity|reflexivity|intros key E; discriminate E].
Defined.

(** ** The Environment Provisioner *)

Lemma is_empty_false_iff (s : string) : Str.is_empty s = false <-> s <> "".
Proof. destruct s; cbn; split; congruence. Qed.

Lemma env_set_same (env : Env) (k v : string) : env_set env k v k = Some v.
Proof. unfold env_set. rewrite String.eqb_refl. reflexivity. Qed.

Lemma env_set_other (env : Env) (k v k' : string) : k' <> k -> env_set env k v k' = env k'.
Proof. intros H. unfold env_set. apply String.eqb_neq in H. rewrite H. reflexivity. Qed.

Lemma set_env_var_empty_key (value : string) (o : bool) (env : Env) :
  set_env_var "" value o env = env.
Proof. reflexivity. Qed.

Lemma set_env_var_empty_value (key : string) (o : bool) (env : Env) :
  set_env_var key "" o env = env.
Proof. unfold set_env_var. rewrite orb_true_r. reflexivity. Qed.

Lemma set_env_var_frame (key value k : string) (o : bool) (env : Env) :
  k <> key -> set_env_var key value o env k = env k.
Proof.
  intros H. unfold set_env_var.
  destruct (Str.is_empty key || Str.is_empty value); [reflexivity|].
  destruct (negb o && is_some (env key)); [reflexivity|]. apply env_set_other, H.
Qed.

Lemma set_env_var_preserve (key value k v : string) (o : bool) (env : Env) :
  env k = Some v -> (o = false \/ k <> key) -> set_env_var key value o env k = Some v.
Proof.
  intros Hk [-> | Hne]; [|rewrite set_env_var_frame; assumption].
  unfold set_env_var.
  destruct (Str.is_empty key || Str.is_empty value); [exact Hk|].
  destruct (String.eqb k key) eqn:E.
  - apply String.eqb_eq in E. subst k. rewrite Hk. cbn [negb andb is_some]. exact Hk.
  - apply String.eqb_neq in E.
    destruct (negb false && is_some (env key)); [exact Hk|].
    rewrite env_set_other; assumption.
Qed.

Lemma set_env_var_write (key value : string) (o : bool) (env : Env) :
  key <> "" -> value <> "" -> (o = true \/ env key = None) ->
  set_env_var key value o env key = Some value.
Proof.
  intros Hk Hv Ho. unfold set_env_var.
  apply is_empty_false_iff in Hk, Hv. rewrite Hk, Hv. cbn [orb].
  destruct Ho as [-> | ->]; cbn [negb andb is_some]; [|rewrite andb_false_r]; apply env_set_same.
Qed.

Lemma set_extras_frame (api_key0 base : string) (extras : list EnvExtra) (env : Env) (k : string) :
  ~ In k (map extra_key extras) -> set_extras api_key0 base extras env k = env k.
Proof.
  unfold set_extras. revert env.
  induction extras as [|e rest IH]; cbn [fold_left map In]; intros env Hk; [reflexivity|].
  rewrite IH by tauto. apply set_env_var_frame. intros E. apply Hk. left. congruence.
Qed.

Lemma set_extras_preserve (api_key0 base : string) (extras : list EnvExtra) (env : Env) (k v : string) :
  env k = Some v -> set_extras api_key0 base extras env k = Some v.
Proof.
  unfold set_extras. revert env.
  induction extras as [|e rest IH]; cbn [fold_left]; intros env Hk; [exact Hk|].
  apply IH. apply set_env_var_preserve; auto.
Qed.

Lemma set_extras_write (api_key0 base : string) (extras : list EnvExtra) (env : Env) (e : EnvExtra) :
  In e extras -> NoDup (map extra_key extras) ->
  env e.(extra_key) = None -> e.(extra_key) <> "" -> extra_value api_key0 base e <> "" ->
  set_extras api_key0 base extras env e.(extra_key) = Some (extra_value api_key0 base e).
Proof.
  unfold set_extras. revert env.
  induction extras as [|e' rest IH]; cbn [fold_left map In]; intros env He Hnd Hnone Hk Hv;
    [destruct He|].
  inversion Hnd as [|? ? Hnotin Hnd']; subst.
  destruct He as [<- | He].
  - fold (set_extras api_key0 base rest (set_env_var e'.(extra_key)
            (extra_value api_key0 base e') false env)).
    rewrite set_extras_frame by exact Hnotin.
    apply set_env_var_write; auto.
  - apply IH; auto.
    rewrite set_env_var_frame; [exact Hnone|].
    intros E. apply Hnotin. rewrite <- E. apply in_map, He.
Qed.

Lemma setup_env_unfold (p : LiteLLMProvider) (model : string) (env : Env) (spec : ProviderSpec) :
  env_spec p model = Some spec ->
  setup_env p model env =
  set_extras p.(api_key) (effective_base p spec) spec.(env_extras)
    (set_env_var spec.(env_key) p.(api_key) (is_some p.(gateway)) env).
Proof.
  intros H. unfold setup_env. rewrite H.
  destruct (Str.is_empty (env_key spec)) eqn:E; [|reflexivity].
  destruct (env_key spec); [|discriminate]. reflexivity.
Qed.

Lemma env_spec_gateway (p : LiteLLMProvider) (model : string) (spec : ProviderSpec) :
  env_spec p model = Some spec -> is_some p.(gateway) = true -> p.(gateway) = Some spec.
Proof. unfold env_spec. destruct (gateway p); [congruence|discriminate]. Qed.

(** C5: the writes of [setup_env].  With [spec] the provisioned
    descriptor and [env'] the environment afterwards:
    - a selected gateway's credential is always written (overwriting);
    - a vendor credential is written when its key is unset, and a value
      already there is kept;
    - every value present before is kept, except the gateway credential
      key, which is the only write allowed to overwrite;
    - each auxiliary entry whose key is unset gets its template with
      [{api_key}] and [{api_base}] substituted, the base being the
      explicit base URL, else the descriptor default;
    - an empty key or an empty value writes nothing;
    - no key besides the credential key and the auxiliary keys changes;
    - with no descriptor, nothing is written. *)
Theorem setup_env_writes (p : LiteLLMProvider) (model : string) (env : Env) :
  (env_spec p model = None -> forall k, setup_env p model env k = env k)
  /\
  forall spec, env_spec p model = Some spec ->
  let env' := setup_env p model env in
  (p.(gateway) = Some spec -> p.(api_key) <> "" -> spec.(env_key) <> "" ->
     env' spec.(env_key) = Some p.(api_key))
  /\ (p.(gateway) = None -> env spec.(env_key) = None -> p.(api_key) <> "" ->
      spec.(env_key) <> "" -> env' spec.(env_key) = Some p.(api_key))
  /\ (forall k v, env k = Some v -> (p.(gateway) = None \/ k <> spec.(env_key)) ->
      env' k = Some v)
  /\ (forall e, In e spec.(env_extras) -> NoDup (map extra_key spec.(env_extras)) ->
      e.(extra_key) <> spec.(env_key) -> env e.(extra_key) = None ->
      e.(extra_key) <> "" -> extra_value p.(api_key) (effective_base p spec) e <> "" ->
      env' e.(extra_key) = Some (extra_value p.(api_key) (effective_base p spec) e))
  /\ (forall k0 v0 o, set_env_var "" v0 o env = env /\ set_env_var k0 "" o env = env)
  /\ (forall k, k <> spec.(env_key) -> ~ In k (map extra_key spec.(env_extras)) ->
      env' k = env k).
Proof.
  split.
  - intros H k. unfold setup_env. rewrite H. reflexivity.
  - intros spec Hspec env'. unfold env'. rewrite (setup_env_unfold p model env spec Hspec).
    repeat split.
    + intros Hg Hk He. apply set_extras_preserve, set_env_var_write; auto.
      left. rewrite Hg. reflexivity.
    + intros Hg Hnone Hk He. apply set_extras_preserve, set_env_var_write; auto.
    + intros k v Hk Hcase. apply set_extras_preserve, set_env_var_preserve; [exact Hk|].
      destruct Hcase as [Hg|Hne]; [left; rewrite Hg; reflexivity|right; exact Hne].
    + intros e He Hnd Hne Hnone Hk Hv. apply set_extras_write; auto.
      rewrite set_env_var_frame; assumption.
    + apply set_env_var_empty_value.
    + intros k Hk Hx. rewrite set_extras_frame by exact Hx.
      apply set_env_var_frame, Hk.
Qed.

Lemma setup_env_writes_witness :
  setup_env moonshot_provider "kimi-k2.5" env0 "MOONSHOT_API_KEY" = Some "old"
  /\ setup_env moonshot_provider "kimi-k2.5" env0 "MOONSHOT_API_BASE"
     = Some "https://api.moonshot.ai/v1".
Proof.
  destruct (setup_env_writes moonshot_provider "kimi-k2.5" env0) as [_ H].
  destruct (H moonshot eq_refl) as (_ & _ & Hkeep & Hextra & _ & _).
  split.
  - apply Hkeep; [reflexivity|left; reflexivity].
  - apply (Hextra {| extra_key := "MOONSHOT_API_BASE"; value_template := "{api_base}" |});
      [left; reflexivity | repeat constructor; intros [] | discriminate
      | reflexivity | discriminate | vm_compute; discriminate].
Defined.

(** ** The Override Engine *)

Lemma catalog_overrides_wellformed (s : ProviderSpec) :
  In s PROVIDERS ->
  Forall (fun r => Str.to_lower r.(pattern) = r.(pattern) /\ r.(temperature) <> None)
    s.(model_overrides).
Proof.
  intros Hs. in_catalog Hs; cbn; repeat constructor; discriminate.
Qed.

Lemma first_override_spec (ml : string) (rules : list ModelOverride) :
  Forall (fun r => Str.to_lower r.(pattern) = r.(pattern) /\ r.(temperature) <> None) rules ->
  first_override ml rules =
  match find_first (fun r => Str.contains ml (Str.to_lower r.(pattern))) rules with
  | Some r => r.(temperature)
  | None => None
  end.
Proof.
  induction 1 as [|r rules [Hlow Htemp] _ IH]; cbn; [reflexivity|].
  rewrite Hlow. destruct (Str.contains ml (pattern r)); [|exact IH].
  destruct (temperature r); [reflexivity|congruence].
Qed.

(** C6: over the catalog, [apply_model_overrides] is the Override Engine
    as specified: first matching rule of the matched vendor, compared
    case-insensitively, at most one rule applied, temperature untouched
    when none matches; ["moonshot/kimi-k2.5"] at 0.2 gets 1.0, and so
    does the same identifier spelt with a KELVIN SIGN (U+212A, bytes
    E2 84 AA), which lowercases to ["k"]. *)
Theorem apply_model_overrides_first_match (model : string) (temp : f32) :
  apply_model_overrides model temp = overrides_as_specified model temp
  /\ apply_model_overrides "moonshot/kimi-k2.5" (2 # 10) = 1%Q
  /\ apply_model_overrides ("moonshot/" ++ Str.byte3 226 132 170 ++ "IMI-K2.5") (2 # 10) = 1%Q.
Proof.
  split; [|split; reflexivity].
  unfold apply_model_overrides, overrides_as_specified.
  destruct (find_by_model model) as [s|] eqn:Hf; [|reflexivity].
  destruct (find_first_some _ _ _ Hf) as [Hs _].
  pose proof (catalog_overrides_wellformed s Hs) as Hw.
  rewrite (first_override_spec _ _ Hw).
  destruct (find_first _ (model_overrides s)) as [r|] eqn:Hr; [|reflexivity].
  destruct (find_first_some _ _ _ Hr) as [Hin _].
  rewrite Forall_forall in Hw. destruct (Hw r Hin) as [_ Ht].
  destruct (temperature r); [reflexivity|congruence].
Qed.

(** ** Non-emptiness of resolution *)

Lemma find_gateway_prefix (n k b : option string) (g : ProviderSpec) :
  find_gateway n k b = Some g -> g.(litellm_prefix) <> "".
Proof.
  unfold find_gateway.
  destruct n as [n|].
  - destruct (find_by_name n) as [s|] eqn:Hn.
    + destruct (find_first_some _ _ _ Hn) as [Hs _].
      destruct (is_gateway s || is_local s) eqn:Hgl.
      * intros [= <-]. in_catalog Hs; first [discriminate Hgl | discriminate].
      * intros H. destruct (find_first_some _ _ _ H) as [Hg Hd].
        in_catalog Hg; first [discriminate | vm_compute in Hd; discriminate Hd].
    + intros H. destruct (find_first_some _ _ _ H) as [Hg Hd].
      in_catalog Hg; first [discriminate | vm_compute in Hd; discriminate Hd].
  - intros H. destruct (find_first_some _ _ _ H) as [Hg Hd].
    in_catalog Hg; first [discriminate | vm_compute in Hd; discriminate Hd].
Qed.

Lemma append_nonempty_r (a b : string) : b <> "" -> a ++ b <> "".
Proof. destruct a; cbn; [auto|discriminate]. Qed.

(** C7, counterexample: with no gateway the empty identifier resolves to
    the empty identifier. *)
Lemma resolve_model_empty_counterexample : resolve_model None "" = "".
Proof. reflexivity. Qed.

(** C7, amended: [resolve_model] is a total function, and its result is
    empty only when no gateway is selected and the identifier itself is
    empty; with the gateway chosen by [find_gateway] (on any inputs) the
    result is non-empty whenever a gateway is found or the identifier is
    non-empty. *)
Theorem resolve_model_nonempty (n k b : option string) (m : string) :
  resolve_model (find_gateway n k b) m = "" -> find_gateway n k b = None /\ m = "".
Proof.
  destruct (find_gateway n k b) as [g|] eqn:Hg.
  - pose proof (find_gateway_prefix n k b g Hg) as Hp.
    unfold resolve_model, Str.join_slash.
    assert (He : Str.is_empty (litellm_prefix g) = false) by (apply is_empty_false_iff, Hp).
    rewrite He. cbn [orb].
    set (nm := if strip_model_prefix g then Str.last_segment m else m).
    destruct (Str.starts_with nm (litellm_prefix g ++ "/")) eqn:Hs.
    + intros E. rewrite E in Hs. destruct (litellm_prefix g); [congruence|discriminate].
    + intros E. destruct (litellm_prefix g); [congruence|discriminate].
  - unfold resolve_model.
    destruct (find_by_model m) as [s|]; [|split; auto].
    destruct (_ && _); [|split; auto].
    unfold Str.join_slash. intros E.
    exfalso. revert E. apply append_nonempty_r. discriminate.
Qed.

Lemma resolve_model_nonempty_witness :
  find_gateway None None None = None /\ "" = "".
Proof. apply (resolve_model_nonempty None None None ""). reflexivity. Defined.

(** ** Construction with an empty key *)

(** C10: [new] with an empty API key skips [setup_env]: the environment
    is unchanged, although the skipped provisioning would have written
    [MOONSHOT_API_BASE] for a Moonshot default model. *)
Theorem new_empty_key_env (api_base0 : option string) (default_model0 : string)
  (provider_name : option string) (env : Env) :
  snd (new "" api_base0 default_model0 provider_name env) = env
  /\ setup_env (fst (new "" None "kimi-k2.5" None env0)) "kimi-k2.5" env0 "MOONSHOT_API_BASE"
     = Some "https://api.moonshot.ai/v1".
Proof. split; reflexivity. Qed.

(** ** Invocation with fallback *)

(** C1: the fallback call with the raw identifier is made exactly when
    the primary call with the resolved identifier fails and the two
    identifiers differ; when both fail, the error carries both messages;
    when they are equal, the primary failure is returned with no retry. *)
Theorem chat_fallback (parse_json : string -> option Value)
  (completion : string -> Result CompletionResponse)
  (p : LiteLLMProvider) (model : option string) (temp : f32) :
  let selected := match model with Some m => m | None => p.(default_model) end in
  let resolved := resolve_model p.(gateway) selected in
  let calls := snd (fst (chat parse_json completion p model temp)) in
  let outcome := snd (chat parse_json completion p model temp) in
  (calls = [resolved] \/ calls = [resolved; selected])
  /\ (calls = [resolved; selected] <->
      (exists e, completion resolved = Err e) /\ resolved <> selected)
  /\ (forall e1 e2, completion resolved = Err e1 -> completion selected = Err e2 ->
      resolved <> selected ->
      exists pre mid, outcome = Err (pre ++ e1 ++ mid ++ e2))
  /\ (forall e1, resolved = selected -> completion resolved = Err e1 ->
      calls = [resolved] /\ exists pre, outcome = Err (pre ++ e1)).
Proof.
  intros selected resolved calls outcome.
  unfold calls, outcome, chat. fold selected. fold resolved.
  unfold invoke.
  destruct (completion resolved) as [r1|e1] eqn:H1; cbn [fst snd].
  - split; [left; reflexivity|].
    split; [split; [discriminate | intros [[e He] _]; discriminate He]|].
    split; [intros e e2 He; discriminate He|].
    intros e _ He. discriminate He.
  - destruct (String.eqb resolved selected) eqn:Heq; cbn [negb fst snd].
    + apply String.eqb_eq in Heq.
      split; [left; reflexivity|].
      split; [split; [discriminate | intros [_ Hne]; contradiction]|].
      split; [intros e e2 _ _ Hne; contradiction|].
      intros e _ [= <-]. split; [reflexivity|].
      exists "failed to call litellm-rs completion: ". reflexivity.
    + apply String.eqb_neq in Heq.
      destruct (completion selected) as [r2|e2] eqn:H2; cbn [fst snd].
      * split; [right; reflexivity|].
        split; [split; [intros _; eauto | intros _; reflexivity]|].
        split; [intros e e2 _ He; discriminate He|].
        intros e E. contradiction.
      * split; [right; reflexivity|].
        split; [split; [intros _; eauto | intros _; reflexivity]|].
        split; [|intros e E; contradiction].
        intros e e2' [= <-] [= <-] _.
        exists "failed to call litellm-rs completion: primary=", "; fallback=".
        reflexivity.
Qed.

Lemma chat_fallback_witness :
  let p := {| api_key := ""; api_base := None; default_model := "qwen-plus"; gateway := None |} in
  exists pre mid,
    snd (chat (fun _ => None) failing_completion p None 1%Q)
    = Err (pre ++ "down" ++ mid ++ "bad id").
Proof.
  intros p.
  destruct (chat_fallback (fun _ => None) failing_completion p None 1%Q)
    as (_ & _ & H & _).
  apply H; [reflexivity | reflexivity | discriminate].
Defined.

(** ** Tool-call arguments *)

(** C8: every backend tool call of the reply gives one [ToolCallRequest],
    in order, with the same id and name, whose arguments are the parsed
    JSON object when the argument string parses to one and otherwise
    [{"raw": <argument string>}]; the argument text is never lost. *)
Theorem tool_call_arguments (parse_json : string -> option Value) (resp : CompletionResponse) :
  Forall2 (fun call tr =>
             tr.(tc_id) = call.(call_id) /\ tr.(tc_name) = call.(function).(fn_name)
             /\ tr.(arguments) = expected_arguments parse_json call.(function).(fn_arguments)
             /\ ((exists m, parse_json call.(function).(fn_arguments) = Some (VObject m)
                           /\ tr.(arguments) = m)
                 \/ map_get tr.(arguments) "raw" = Some (VString call.(function).(fn_arguments))))
    (backend_tool_calls resp) (normalize_response parse_json resp).(tool_calls).
Proof.
  unfold backend_tool_calls, normalize_response.
  destruct (choices resp) as [|choice rest]; cbn [tool_calls]; [constructor|].
  induction (match msg_tool_calls (message choice) with Some l => l | None => [] end)
    as [|call calls IH]; cbn [map]; constructor; [|exact IH].
  unfold convert_tool_call, expected_arguments. cbn [tc_id tc_name arguments].
  destruct (parse_json (fn_arguments (function call))) as [v|] eqn:Hp.
  - destruct v; cbn [as_object]; repeat split; eauto; right; reflexivity.
  - repeat split. right. reflexivity.
Qed.

(** ** The no-tools-claim classifier *)

Lemma substring_full (s : string) : substring 0 (String.length s) s = s.
Proof. induction s as [|c s IH]; cbn; [reflexivity|]. rewrite IH. reflexivity. Qed.

Lemma substring_split (n : nat) (s : string) :
  s = substring 0 n s ++ substring n (String.length s - n) s.
Proof.
  revert n. induction s as [|c s IH]; intros n.
  - destruct n; reflexivity.
  - destruct n as [|n].
    + cbn [substring String.length Nat.sub append]. rewrite substring_full. reflexivity.
    + cbn [substring String.length Nat.sub append]. rewrite <- IH. reflexivity.
Qed.

Lemma str_app_assoc (a b c : string) : a ++ (b ++ c) = (a ++ b) ++ c.
Proof. induction a as [|x a IH]; cbn; [reflexivity|]. rewrite IH. reflexivity. Qed.

Lemma trim_start_fuel_suffix (f : nat) : forall s, exists pre, s = pre ++ Str.trim_start_fuel f s.
Proof.
  induction f as [|f IH]; intros s; cbn [Str.trim_start_fuel].
  - exists "". reflexivity.
  - destruct (Str.ws_len s) as [|n] eqn:E.
    + exists "". reflexivity.
    + destruct (IH (Str.drop (S n) s)) as [pre Hpre].
      exists (substring 0 (S n) s ++ pre). rewrite <- str_app_assoc, <- Hpre.
      apply substring_split.
Qed.

Lemma trim_start_suffix (s : string) : exists pre, s = pre ++ Str.trim_start s.
Proof. apply trim_start_fuel_suffix. Qed.

Lemma trim_end_fuel_prefix (f : nat) : forall s, exists post, s = Str.trim_end_fuel f s ++ post.
Proof.
  induction f as [|f IH]; intros s; cbn [Str.trim_end_fuel].
  - exists "". induction s as [|c s IH]; [reflexivity|]. cbn. rewrite <- IH. reflexivity.
  - destruct s as [|c s'].
    + exists "". reflexivity.
    + destruct (Str.ws_len (String c s')) as [|n] eqn:E.
      * destruct (IH s') as [post Hpost]. exists post. cbn. rewrite <- Hpost. reflexivity.
      * destruct (IH (Str.drop (S n) (String c s'))) as [post Hpost]. cbv zeta.
        destruct (Str.is_empty (Str.trim_end_fuel f (Str.drop (S n) (String c s')))).
        -- exists (String c s'). reflexivity.
        -- exists post. rewrite <- str_app_assoc, <- Hpost. apply substring_split.
Qed.

Lemma trim_end_prefix (s : string) : exists post, s = Str.trim_end s ++ post.
Proof. apply trim_end_fuel_prefix. Qed.

Lemma trim_infix (s : string) : exists pre post, s = pre ++ Str.trim s ++ post.
Proof.
  destruct (trim_start_suffix s) as [pre Hpre].
  destruct (trim_end_prefix (Str.trim_start s)) as [post Hpost].
  exists pre, post. unfold Str.trim. rewrite <- Hpost. exact Hpre.
Qed.

Section ClassifierFacts.

Variable parse_json : string -> option Value.

Lemma scan_starts_infix (text : string) (v : Value) :
  scan_starts parse_json text = Some v -> parsed_infix parse_json text v.
Proof.
  induction text as [|c s IH]; cbn [scan_starts]; [discriminate|].
  assert (Hnext : scan_starts parse_json s = Some v -> parsed_infix parse_json (String c s) v).
  { intros H. destruct (IH H) as (pre & mid & post & E & Hp & Ho).
    exists (String c pre), mid, post. rewrite E. auto. }
  destruct (Ascii.eqb c lbrace); [|exact Hnext].
  destruct (scan (String c s) 0 0 false false) as [n|]; [|exact Hnext].
  destruct (parse_json (substring 0 n (String c s))) as [w|] eqn:Hp; [|exact Hnext].
  destruct (is_object w) eqn:Ho; [|exact Hnext].
  intros [= <-]. exists "", (substring 0 n (String c s)),
    (substring n (String.length (String c s) - n) (String c s)).
  split; [apply substring_split|auto].
Qed.

Lemma extract_json_object_infix (text : string) (v : Value) :
  extract_json_object parse_json text = Some v -> parsed_infix parse_json text v.
Proof.
  unfold extract_json_object.
  destruct (parse_json (Str.trim text)) as [w|] eqn:Hp; [|apply scan_starts_infix].
  destruct (is_object w) eqn:Ho; [|apply scan_starts_infix].
  intros [= <-]. destruct (trim_infix text) as (pre & post & E).
  exists pre, (Str.trim text), post. auto.
Qed.

End ClassifierFacts.

(** C9: the classifier answers [false] when the chat call fails, when the
    reply has no content, when no JSON object can be extracted from it,
    and when the extracted object has no boolean [claims_no_tools]; it
    answers [true] only when the reply contains (as a piece of its text) a
    JSON object whose [claims_no_tools] is [true]. *)
Theorem classifier_false_on_failure (parse_json : string -> option Value)
  (provider_chat : list Value -> option string -> nat -> f32 -> Result LLMResponse)
  (model tools_text content0 : string) :
  let call := provider_chat (classifier_messages tools_text content0) (Some model) 120%nat 0%Q in
  let answer := response_claims_no_tools parse_json provider_chat model tools_text content0 in
  (forall e, call = Err e -> answer = false)
  /\ (forall r, call = Ok r -> r.(content) = None -> answer = false)
  /\ (forall r t, call = Ok r -> r.(content) = Some t ->
      extract_json_object parse_json t = None -> answer = false)
  /\ (forall r t v, call = Ok r -> r.(content) = Some t ->
      extract_json_object parse_json t = Some v ->
      (forall b, value_get v "claims_no_tools" <> Some (VBool b)) -> answer = false)
  /\ (answer = true ->
      exists r t v, call = Ok r /\ r.(content) = Some t
        /\ extract_json_object parse_json t = Some v
        /\ parsed_infix parse_json t v
        /\ value_get v "claims_no_tools" = Some (VBool true)).
Proof.
  intros call answer. unfold answer, response_claims_no_tools. fold call.
  destruct (Str.is_empty (Str.trim content0) || String.eqb tools_text "(none)") eqn:Hg.
  { repeat split; intros; try reflexivity; discriminate. }
  split; [intros e -> ; reflexivity|].
  split; [intros r -> Hc; rewrite Hc; reflexivity|].
  split; [intros r t -> Hc He; rewrite Hc, He; reflexivity|].
  split.
  - intros r t v -> Hc He Hb. rewrite Hc, He.
    destruct (value_get v "claims_no_tools") as [w|] eqn:Hw; [|reflexivity].
    destruct w; try reflexivity. exfalso. apply (Hb b). reflexivity.
  - destruct call as [r|e]; [|discriminate].
    destruct (content r) as [t|] eqn:Hc; [|discriminate].
    destruct (extract_json_object parse_json t) as [v|] eqn:He; [|discriminate].
    destruct (value_get v "claims_no_tools") as [w|] eqn:Hw; [|discriminate].
    destruct w; try discriminate. cbn [as_bool]. intros ->.
    exists r, t, v. repeat split; auto.
    apply extract_json_object_infix, He.
Qed.

Lemma classifier_false_on_failure_witness :
  response_claims_no_tools toy_parse (fun _ _ _ _ => Err "timeout") "m" "exec" "no tools here"
  = false.
Proof.
  destruct (classifier_false_on_failure toy_parse (fun _ _ _ _ => Err "timeout")
              "m" "exec" "no tools here") as [H _].
  apply (H "timeout"). reflexivity.
Defined.

(** * Further properties of the code *)

(** ** Catalog lookups *)

(** X1: [find_gateway] only ever yields a catalog descriptor flagged as a
    gateway or as local, whichever way it was selected. *)
Theorem find_gateway_kind (n k b : option string) (g : ProviderSpec) :
  find_gateway n k b = Some g ->
  In g PROVIDERS /\ (g.(is_gateway) || g.(is_local)) = true.
Proof.
  unfold find_gateway.
  assert (Hdet : find_first (gateway_detects k b) PROVIDERS = Some g ->
                 In g PROVIDERS /\ (g.(is_gateway) || g.(is_local)) = true).
  { intros H. destruct (find_first_some _ _ _ H) as [Hg Hd]. split; [exact Hg|].
    in_catalog Hg; first [reflexivity | vm_compute in Hd; discriminate Hd]. }
  destruct n as [n|]; [|exact Hdet].
  destruct (find_by_name n) as [s|] eqn:Hn; [|exact Hdet].
  destruct (find_first_some _ _ _ Hn) as [Hs _].
  destruct (is_gateway s || is_local s) eqn:Hgl; [|exact Hdet].
  intros [= <-]. auto.
Qed.

Lemma find_gateway_kind_witness :
  find_gateway None (Some "sk-or-v1-abc") None = Some openrouter
  /\ In openrouter PROVIDERS /\ (openrouter.(is_gateway) || openrouter.(is_local)) = true.
Proof.
  assert (H : find_gateway None (Some "sk-or-v1-abc") None = Some openrouter) by reflexivity.
  split; [exact H | exact (find_gateway_kind _ _ _ _ H)].
Defined.

(** X3: Catalog names are unique: [find_by_name n] is the catalog descriptor
    named [n], and [None] exactly when no descriptor has that name. *)
Theorem find_by_name_spec (n : string) :
  (forall s, find_by_name n = Some s <-> In s PROVIDERS /\ s.(name) = n)
  /\ (find_by_name n = None <-> forall s, In s PROVIDERS -> s.(name) <> n).
Proof.
  assert (Hsome : forall s, find_by_name n = Some s <-> In s PROVIDERS /\ s.(name) = n).
  { intros s. split.
    - intros H. destruct (find_first_some _ _ _ H) as [Hs He].
      apply String.eqb_eq in He. auto.
    - intros [Hs <-]. apply find_by_name_catalog, Hs. }
  split; [exact Hsome|]. split.
  - intros H s Hs E. subst n. rewrite find_by_name_catalog in H by exact Hs. discriminate.
  - intros H. case_eq (find_by_name n); [|reflexivity]. intros s E.
    apply Hsome in E as [Hs Hn]. exfalso. exact (H s Hs Hn).
Qed.

(** ** Resolution only prepends *)

(** X4: [resolve_model] never rewrites the identifier it keeps: the result is
    the identifier (its last path segment under a stripping gateway)
    preceded by some prefix. *)
Theorem resolve_model_suffix (gw : option ProviderSpec) (m : string) :
  exists pre, resolve_model gw m =
    pre ++ match gw with
           | Some g => if g.(strip_model_prefix) then Str.last_segment m else m
           | None => m
           end.
Proof.
  unfold resolve_model, Str.join_slash. destruct gw as [g|].
  - set (x := if strip_model_prefix g then Str.last_segment m else m).
    destruct (Str.is_empty (litellm_prefix g) || Str.starts_with x (litellm_prefix g ++ "/")).
    + exists "". reflexivity.
    + exists (litellm_prefix g ++ "/"). rewrite <- str_app_assoc. reflexivity.
  - destruct (find_by_model m) as [s|]; [|exists ""; reflexivity].
    destruct (negb (Str.is_empty (litellm_prefix s))
              && negb (existsb (fun p => Str.starts_with m p) (skip_prefixes s))).
    + exists (litellm_prefix s ++ "/"). rewrite <- str_app_assoc. reflexivity.
    + exists "". reflexivity.
Qed.

(** ** Overrides under vendor resolution *)

Lemma first_override_join (p ml : string) (rules : list ModelOverride) :
  Forall (fun r => Str.has_slash r.(pattern) = false /\ Str.contains p r.(pattern) = false) rules ->
  first_override (p ++ String Str.slash ml) rules = first_override ml rules.
Proof.
  induction 1 as [|r rules [Hs Hp] _ IH]; cbn [first_override]; [reflexivity|].
  rewrite (StrFacts.contains_app_slash _ _ _ Hs), Hp. cbn [orb].
  destruct (Str.contains ml (pattern r)), (temperature r); auto.
Qed.

Lemma catalog_patterns_outside_prefix (s : ProviderSpec) :
  In s PROVIDERS ->
  Forall (fun r => Str.has_slash r.(pattern) = false
                   /\ Str.contains s.(litellm_prefix) r.(pattern) = false) s.(model_overrides).
Proof. intros Hs. in_catalog Hs; repeat constructor. Qed.

(** X5: [chat] looks the temperature override up on the resolved identifier;
    without a gateway this gives the same temperature as a lookup on the
    identifier the caller asked for. *)
Theorem overrides_vendor_resolution (m : string) (temp : f32) :
  apply_model_overrides (resolve_model None m) temp = apply_model_overrides m temp.
Proof.
  unfold resolve_model.
  destruct (find_by_model m) as [s|] eqn:Hf; [|reflexivity].
  destruct (negb (Str.is_empty (litellm_prefix s))
            && negb (existsb (fun p => Str.starts_with m p) (skip_prefixes s))); [|reflexivity].
  unfold apply_model_overrides. rewrite (find_by_model_join m s Hf), Hf.
  destruct (find_first_some _ _ _ Hf) as [Hs _].
  unfold Str.join_slash. rewrite StrFacts.to_lower_app_slash.
  rewrite (catalog_prefix_lower s Hs).
  rewrite (first_override_join _ _ _ (catalog_patterns_outside_prefix s Hs)).
  reflexivity.
Qed.

(** ** [effective_api_base] *)

(** X6: An explicit base URL always wins; without one, the base is the
    selected gateway's default or the matched vendor's default, and never
    an empty string. *)
Theorem effective_api_base_spec (p : LiteLLMProvider) (m : string) :
  (forall b, p.(api_base) = Some b -> effective_api_base p m = Some b)
  /\ (p.(api_base) = None -> forall x, effective_api_base p m = Some x ->
        x <> "" /\
        ((exists g, p.(gateway) = Some g /\ g.(default_api_base) = x)
         \/ (exists s, find_by_model m = Some s /\ s.(default_api_base) = x))).
Proof.
  unfold effective_api_base. split.
  - intros b ->. reflexivity.
  - intros -> x.
    assert (Hv : match find_by_model m with
                 | Some spec => if negb (Str.is_empty (default_api_base spec))
                                then Some (default_api_base spec) else None
                 | None => None
                 end = Some x ->
                 x <> "" /\
                 ((exists g, p.(gateway) = Some g /\ g.(default_api_base) = x)
                  \/ (exists s, find_by_model m = Some s /\ s.(default_api_base) = x))).
    { destruct (find_by_model m) as [s|]; [|discriminate].
      destruct (Str.is_empty (default_api_base s)) eqn:E; cbn [negb]; [discriminate|].
      intros [= <-]. split; [apply is_empty_false_iff, E|]. right. eauto. }
    destruct (gateway p) as [g|]; [|exact Hv].
    destruct (Str.is_empty (default_api_base g)) eqn:E; cbn [negb]; [exact Hv|].
    intros [= <-]. split; [apply is_empty_false_iff, E|]. left. eauto.
Qed.

(** ** Repeated environment setup *)

(** Each key of the environment is transformed by [setup_env] through a
    function of its own previous value only, of one of two shapes: a
    constant, or "keep a set value, else use [d]". *)
Definition keep_or (d y : option string) : option string :=
  match y with Some v => Some v | None => d end.

Definition key_shape (h : option string -> option string) : Prop :=
  (exists c, forall y, h y = c) \/ (exists d, forall y, h y = keep_or d y).

Definition pointwise_shaped (F : Env -> Env) : Prop :=
  forall k, exists h, key_shape h /\ forall env, F env k = h (env k).

Lemma key_shape_id : key_shape (fun y => y).
Proof. right. exists None. intros [y|]; reflexivity. Qed.

Lemma key_shape_compose (h1 h2 : option string -> option string) :
  key_shape h1 -> key_shape h2 -> key_shape (fun y => h2 (h1 y)).
Proof.
  intros [[c1 H1] | [d1 H1]] [[c2 H2] | [d2 H2]].
  - left. exists c2. intros y. apply H2.
  - left. exists (keep_or d2 c1). intros y. rewrite H1, H2. reflexivity.
  - left. exists c2. intros y. apply H2.
  - right. exists (keep_or d2 d1). intros [y|]; rewrite H1, H2; reflexivity.
Qed.

Lemma key_shape_idem (h : option string -> option string) :
  key_shape h -> forall y, h (h y) = h y.
Proof.
  intros [[c H] | [d H]] y; rewrite !H; [reflexivity|].
  destruct y as [v|]; cbn; [reflexivity|]. destruct d; reflexivity.
Qed.

Lemma pointwise_shaped_id : pointwise_shaped (fun env => env).
Proof. intros k. exists (fun y => y). split; [apply key_shape_id | reflexivity]. Qed.

Lemma pointwise_shaped_compose (F G : Env -> Env) :
  pointwise_shaped F -> pointwise_shaped G -> pointwise_shaped (fun env => G (F env)).
Proof.
  intros HF HG k. destruct (HF k) as [h1 [S1 E1]], (HG k) as [h2 [S2 E2]].
  exists (fun y => h2 (h1 y)). split; [apply key_shape_compose; assumption|].
  intros env. rewrite E2, E1. reflexivity.
Qed.

Lemma set_env_var_shaped (key value : string) (o : bool) :
  pointwise_shaped (set_env_var key value o).
Proof.
  intros k. unfold set_env_var.
  destruct (Str.is_empty key || Str.is_empty value) eqn:Hkv.
  { exists (fun y => y). split; [apply key_shape_id | reflexivity]. }
  destruct (String.eqb k key) eqn:Ek.
  - apply String.eqb_eq in Ek. subst k. destruct o; cbn [negb andb].
    + exists (fun _ => Some value). split; [left; eauto|].
      intros env. apply env_set_same.
    + exists (keep_or (Some value)). split; [right; eauto|].
      intros env. destruct (env key) as [v|] eqn:E; cbn [is_some]; [exact E|].
      apply env_set_same.
  - apply String.eqb_neq in Ek. exists (fun y => y). split; [apply key_shape_id|].
    intros env. destruct (negb o && is_some (env key)); [reflexivity|].
    apply env_set_other, Ek.
Qed.

Lemma set_extras_shaped (api_key0 base : string) (extras : list EnvExtra) :
  pointwise_shaped (set_extras api_key0 base extras).
Proof.
  unfold set_extras.
  assert (H : forall F, pointwise_shaped F ->
    pointwise_shaped (fun env => fold_left (fun e extra =>
      set_env_var extra.(extra_key) (extra_value api_key0 base extra) false e) extras (F env))).
  { induction extras as [|x rest IH]; intros F HF; cbn [fold_left]; [exact HF|].
    apply (IH (fun env => set_env_var (extra_key x) (extra_value api_key0 base x) false (F env))).
    apply (pointwise_shaped_compose F); [exact HF | apply set_env_var_shaped]. }
  apply (H (fun env => env)), pointwise_shaped_id.
Qed.

Lemma setup_env_shaped (p : LiteLLMProvider) (model : string) :
  pointwise_shaped (setup_env p model).
Proof.
  unfold setup_env. destruct (env_spec p model) as [spec|]; [|apply pointwise_shaped_id].
  apply (pointwise_shaped_compose
           (fun env => if negb (Str.is_empty (env_key spec))
                       then set_env_var (env_key spec) (api_key p) (is_some (gateway p)) env
                       else env)).
  - destruct (negb (Str.is_empty (env_key spec)));
      [apply set_env_var_shaped | apply pointwise_shaped_id].
  - apply set_extras_shaped.
Qed.

Lemma setup_env_idem (p : LiteLLMProvider) (model : string) (env : Env) (k : string) :
  setup_env p model (setup_env p model env) k = setup_env p model env k.
Proof.
  destruct (setup_env_shaped p model k) as [h [S E]].
  rewrite !E. apply key_shape_idem, S.
Qed.

(** X7: Constructing the provider a second time with the same arguments
    leaves the process environment as the first construction left it,
    whatever it was before. *)
Theorem new_twice_env (api_key0 : string) (api_base0 : option string) (default_model0 : string)
  (provider_name : option string) (env : Env) (k : string) :
  snd (new api_key0 api_base0 default_model0 provider_name
         (snd (new api_key0 api_base0 default_model0 provider_name env))) k
  = snd (new api_key0 api_base0 default_model0 provider_name env) k.
Proof.
  unfold new. cbn [snd api_key default_model].
  destruct (negb (Str.is_empty api_key0)); [apply setup_env_idem | reflexivity].
Qed.

(** ** [split] and [join] *)

Local Open Scope nat_scope.

Lemma str_length_app (a b : string) : String.length (a ++ b) = (String.length a + String.length b)%nat.
Proof. induction a as [|c a IH]; cbn; [reflexivity|]. rewrite IH. reflexivity. Qed.

Lemma str_app_nil (a : string) : a ++ "" = a.
Proof. induction a as [|c a IH]; cbn; [reflexivity|]. rewrite IH. reflexivity. Qed.

Lemma starts_with_prefix (p r : string) : Str.starts_with (p ++ r) p = true.
Proof.
  induction p as [|c p IH]; cbn [Str.starts_with append]; [reflexivity|].
  rewrite Ascii.eqb_refl, IH. reflexivity.
Qed.

Lemma drop_prefix (p r : string) : Str.drop (String.length p) (p ++ r) = r.
Proof.
  unfold Str.drop. induction p as [|c p IH]; cbn [String.length append substring].
  - rewrite Nat.sub_0_r. apply substring_full.
  - exact IH.
Qed.

Lemma split_fuel_nonnil (f : nat) (sep s : string) : Str2.split_fuel f sep s <> [].
Proof.
  destruct f as [|f]; cbn [Str2.split_fuel]; [discriminate|].
  destruct s as [|c s]; [discriminate|].
  destruct (negb (Str.is_empty sep) && Str.starts_with (String c s) sep); [discriminate|].
  destruct (Str2.split_fuel f sep s); discriminate.
Qed.

Definition prepend (x : string) (l : list string) : list string :=
  match l with [] => [x] | y :: ys => (x ++ y) :: ys end.

Lemma split_fuel_plain (a : ascii) (sep' x r : string) (f : nat) :
  Str2.has_char a x = false -> String.length x <= f ->
  Str2.split_fuel f (String a sep') (x ++ r)
  = prepend x (Str2.split_fuel (f - String.length x) (String a sep') r).
Proof.
  revert f. induction x as [|c x IH]; intros f Hx Hf.
  - cbn [String.length append]. rewrite Nat.sub_0_r.
    destruct (Str2.split_fuel f (String a sep') r) as [|y ys] eqn:E;
      [exfalso; exact (split_fuel_nonnil _ _ _ E) | reflexivity].
  - destruct f as [|f]; [cbn in Hf; lia|].
    unfold Str2.has_char in Hx. cbn [list_ascii_of_string existsb] in Hx.
    apply orb_false_iff in Hx as [Hc Hx].
    cbn [Str2.split_fuel append String.length Nat.sub].
    cbn [Str.starts_with Str.is_empty negb andb]. rewrite Hc. cbn [andb].
    rewrite IH by (exact Hx || (cbn in Hf; lia)).
    destruct (Str2.split_fuel (f - String.length x) (String a sep') r); reflexivity.
Qed.

Lemma split_fuel_at_sep (a : ascii) (sep' r : string) (g : nat) :
  Str2.split_fuel (S g) (String a sep') (String a sep' ++ r)
  = "" :: Str2.split_fuel g (String a sep') r.
Proof.
  pose proof (starts_with_prefix (String a sep') r) as Hs.
  pose proof (drop_prefix (String a sep') r) as Hd.
  cbn [append] in Hs, Hd |- *. cbn [Str2.split_fuel Str.is_empty negb andb].
  rewrite Hs, Hd. reflexivity.
Qed.

(** Splitting a joined list at a separator whose first byte occurs in no
    item gives the list back. *)
Lemma split_fuel_join (a : ascii) (sep' : string) (items : list string) (f : nat) :
  items <> [] -> Forall (fun x => Str2.has_char a x = false) items ->
  String.length (Str2.join (String a sep') items) <= f ->
  Str2.split_fuel f (String a sep') (Str2.join (String a sep') items) = items.
Proof.
  revert f. induction items as [|x l IH]; intros f Hne Hall Hf; [congruence|].
  inversion Hall as [|? ? Hx Hl]; subst.
  destruct l as [|y l'].
  - cbn [Str2.join] in *. rewrite <- (str_app_nil x) at 1.
    rewrite split_fuel_plain by assumption.
    destruct (f - String.length x); cbn; rewrite str_app_nil; reflexivity.
  - change (Str2.join (String a sep') (x :: y :: l'))
      with (x ++ String a sep' ++ Str2.join (String a sep') (y :: l')) in *.
    rewrite str_length_app in Hf.
    rewrite split_fuel_plain by (assumption || lia).
    rewrite str_length_app in Hf. cbn [String.length] in Hf.
    destruct (f - String.length x) as [|g] eqn:Eg; [lia|].
    rewrite split_fuel_at_sep, IH by (discriminate || assumption || lia).
    cbn [prepend]. rewrite str_app_nil. reflexivity.
Qed.

Lemma split_join (a : ascii) (sep' : string) (items : list string) :
  items <> [] -> Forall (fun x => Str2.has_char a x = false) items ->
  Str2.split (Str2.join (String a sep') items) (String a sep') = items.
Proof. intros. apply split_fuel_join; auto. Qed.

(** ** [tools_available_response] *)

(** X8: For a tool list rendered as the comma-separated names of tools (names
    without a comma), the reply lists exactly those names, one per
    bullet line. *)
Theorem tools_available_response_items (tg : TurnGuard) (items : list string) :
  Forall (fun x => Str2.has_char "," x = false) items ->
  tg.(tools_text) = Str2.join ", " items ->
  tg.(tools_text) <> "(none)" ->
  tools_available_response tg = tools_header ++ Str2.join (nl ++ "- ") items ++ tools_footer.
Proof.
  intros Hall Ht Hn. unfold tools_available_response.
  apply String.eqb_neq in Hn. rewrite Hn, Ht.
  destruct items as [|x l].
  - reflexivity.
  - rewrite (split_join "," " " (x :: l)) by (discriminate || assumption). reflexivity.
Qed.

Lemma tools_available_response_items_witness :
  tools_available_response {| guard_model := "m"; tools_text := "web_search, exec, cron";
                              max_iterations := 5 |}
  = tools_header ++ "web_search" ++ nl ++ "- " ++ "exec" ++ nl ++ "- " ++ "cron" ++ tools_footer.
Proof.
  apply (tools_available_response_items _ ["web_search"; "exec"; "cron"]);
    [repeat constructor | reflexivity | discriminate].
Defined.

(** ** [content_to_text] *)

Definition part_texts (parts : list ContentPart) : list string :=
  flat_map (fun part => match part with
                        | PartText t => [t]
                        | PartToolResult r => [r]
                        | PartOther => []
                        end) parts.

Lemma join_nl_join (l : list string) : join_nl l = Str2.join nl l.
Proof.
  induction l as [|x l IH]; [reflexivity|]. destruct l as [|y l]; [reflexivity|].
  change (join_nl (x :: y :: l)) with (x ++ nl ++ join_nl (y :: l)).
  rewrite IH. reflexivity.
Qed.

(** X9: The text of a multi-part message is its text and tool-result parts
    in order, one per line: when none of them has a line break, splitting
    the text at line breaks gives them back (other parts are dropped). *)
Theorem content_to_text_parts (parts : list ContentPart) :
  part_texts parts <> [] ->
  Forall (fun t => Str2.has_char (ascii_of_nat 10) t = false) (part_texts parts) ->
  Str2.split (content_to_text (ContentParts parts)) nl = part_texts parts.
Proof.
  intros Hne Hall. cbn [content_to_text]. fold (part_texts parts).
  rewrite join_nl_join. apply split_join; assumption.
Qed.

Lemma content_to_text_parts_witness :
  Str2.split (content_to_text (ContentParts [PartText "hello"; PartOther; PartToolResult "42"])) nl
  = ["hello"; "42"].
Proof.
  apply (content_to_text_parts [PartText "hello"; PartOther; PartToolResult "42"]);
    [discriminate | repeat constructor].
Defined.

(** ** [should_retry_after_false_no_tools_claim] *)

(** X10: The guard never asks for a retry (and, the provider being arbitrary,
    never consults it) once the iteration budget is spent, when no tools
    are registered, when there is no reply text, or when the reply is
    blank. *)
Theorem should_retry_gate (parse_json : string -> option Value)
  (provider_chat : list Value -> option string -> nat -> f32 -> Result LLMResponse)
  (tg : TurnGuard) (content0 : option string) (iteration : nat) :
  (tg.(max_iterations) <= iteration \/ tg.(tools_text) = "(none)" \/ content0 = None
   \/ exists t, content0 = Some t /\ Str.trim t = "") ->
  should_retry_after_false_no_tools_claim parse_json provider_chat tg content0 iteration = false.
Proof.
  unfold should_retry_after_false_no_tools_claim.
  intros [Hi | [Ht | [Hc | (t & Hc & Htr)]]].
  - apply Nat.leb_le in Hi. rewrite Hi. reflexivity.
  - rewrite Ht, orb_true_r. reflexivity.
  - rewrite Hc. destruct (_ || _); reflexivity.
  - rewrite Hc. destruct (_ || _); [reflexivity|].
    unfold response_claims_no_tools. rewrite Htr. reflexivity.
Qed.

Lemma should_retry_gate_witness :
  should_retry_after_false_no_tools_claim toy_parse
    (fun _ _ _ _ => Ok {| content := Some toy_reply; tool_calls := [];
                          finish_reason := "stop"; usage := []; reasoning_content := None |})
    {| guard_model := "m"; tools_text := "exec"; max_iterations := 3 |}
    (Some (Str.byte3 227 128 128)) 1 = false.
Proof.
  apply should_retry_gate. right. right. right.
  exists (Str.byte3 227 128 128). split; reflexivity.
Defined.

(** X11: A retry is asked for only within the budget, with tools registered,
    for a non-blank reply, and when the provider's classification reply
    holds a JSON object whose [claims_no_tools] is [true]. *)
Theorem should_retry_evidence (parse_json : string -> option Value)
  (provider_chat : list Value -> option string -> nat -> f32 -> Result LLMResponse)
  (tg : TurnGuard) (content0 : option string) (iteration : nat) :
  should_retry_after_false_no_tools_claim parse_json provider_chat tg content0 iteration = true ->
  iteration < tg.(max_iterations) /\ tg.(tools_text) <> "(none)" /\
  exists t r ct v,
    content0 = Some t /\ Str.trim t <> "" /\
    provider_chat (classifier_messages tg.(tools_text) t) (Some tg.(guard_model)) 120 0%Q = Ok r /\
    r.(content) = Some ct /\ extract_json_object parse_json ct = Some v /\
    value_get v "claims_no_tools" = Some (VBool true).
Proof.
  unfold should_retry_after_false_no_tools_claim.
  destruct (max_iterations tg <=? iteration) eqn:Hi; [discriminate|].
  destruct (String.eqb (tools_text tg) "(none)") eqn:Ht; [discriminate|].
  cbn [orb]. apply Nat.leb_gt in Hi. apply String.eqb_neq in Ht.
  destruct content0 as [t|]; [|discriminate].
  unfold response_claims_no_tools.
  destruct (Str.is_empty (Str.trim t)) eqn:He; [discriminate|].
  apply String.eqb_neq in Ht as Ht'. rewrite Ht'. cbn [orb].
  destruct (provider_chat _ _ _ _) as [r|e] eqn:Hr; [|discriminate].
  destruct (content r) as [ct|] eqn:Hc; [|discriminate].
  destruct (extract_json_object parse_json ct) as [v|] eqn:Hx; [|discriminate].
  destruct (value_get v "claims_no_tools") as [w|] eqn:Hw; [|discriminate].
  destruct w; try discriminate. cbn [as_bool]. intros ->.
  split; [exact Hi|]. split; [exact Ht|].
  exists t, r, ct, v. repeat split; auto. apply is_empty_false_iff, He.
Qed.

Lemma should_retry_evidence_witness :
  should_retry_after_false_no_tools_claim toy_parse
    (fun _ _ _ _ => Ok {| content := Some toy_reply; tool_calls := [];
                          finish_reason := "stop"; usage := []; reasoning_content := None |})
    {| guard_model := "m"; tools_text := "exec"; max_iterations := 3 |}
    (Some "I cannot run commands here") 1 = true
  /\ 1 < 3.
Proof.
  assert (H : should_retry_after_false_no_tools_claim toy_parse
    (fun _ _ _ _ => Ok {| content := Some toy_reply; tool_calls := [];
                          finish_reason := "stop"; usage := []; reasoning_content := None |})
    {| guard_model := "m"; tools_text := "exec"; max_iterations := 3 |}
    (Some "I cannot run commands here") 1 = true) by reflexivity.
  split; [exact H|].
  exact (proj1 (should_retry_evidence _ _ _ _ _ H)).
Defined.

(** ** [parse_state] *)

Lemma starts_with_app_l (x y p : string) :
  Str.starts_with x p = true -> Str.starts_with (x ++ y) p = true.
Proof.
  revert p. induction x as [|c x IH]; intros p H; destruct p as [|d p]; cbn in *; auto.
  - discriminate.
  - apply andb_true_iff in H as [H1 H2]. rewrite H1, (IH _ H2). reflexivity.
Qed.

Lemma contains_app_l (x y p : string) :
  Str.contains x p = true -> Str.contains (x ++ y) p = true.
Proof.
  induction x as [|c x IH]; intros H.
  - destruct p; [apply StrFacts.contains_empty | discriminate].
  - change (Str.contains (String c x) p) with (Str.starts_with (String c x) p || Str.contains x p) in H.
    change (Str.contains (String c x ++ y) p)
      with (Str.starts_with (String c x ++ y) p || Str.contains (x ++ y) p).
    apply orb_true_iff in H as [H|H].
    + rewrite (starts_with_app_l _ _ _ H). reflexivity.
    + rewrite (IH H). apply orb_true_r.
Qed.

Lemma strip_cr_prefix (s : string) : exists r, s = Str2.strip_cr s ++ r.
Proof.
  induction s as [|c s [r IH]]; [exists ""; reflexivity|].
  destruct s as [|d s].
  - cbn [Str2.strip_cr]. destruct (Ascii.eqb c Str2.cr); [exists (String c "") | exists ""]; reflexivity.
  - change (Str2.strip_cr (String c (String d s))) with (String c (Str2.strip_cr (String d s))).
    exists r. cbn [append]. rewrite <- IH. reflexivity.
Qed.

Lemma strip_cr_id (s : string) : Str2.has_char Str2.cr s = false -> Str2.strip_cr s = s.
Proof.
  induction s as [|c s IH]; intros H; [reflexivity|].
  unfold Str2.has_char in H. cbn [list_ascii_of_string existsb] in H.
  apply orb_false_iff in H as [Hc H].
  destruct s as [|d s].
  - cbn [Str2.strip_cr]. rewrite Ascii.eqb_sym, Hc. reflexivity.
  - change (Str2.strip_cr (String c (String d s))) with (String c (Str2.strip_cr (String d s))).
    rewrite IH by exact H. reflexivity.
Qed.

Lemma lines_cons (a b : string) :
  Str2.has_char (ascii_of_nat 10) a = false ->
  Str2.lines (a ++ nl ++ b) = Str2.strip_cr a :: Str2.lines b.
Proof.
  intros Ha. unfold Str2.lines, Str2.split, nl.
  rewrite split_fuel_plain by (exact Ha || (rewrite str_length_app; lia)).
  rewrite str_length_app. cbn [String.length append].
  replace (String.length a + S (String.length b) - String.length a) with (S (String.length b)) by lia.
  change (String (ascii_of_nat 10) b) with (String (ascii_of_nat 10) "" ++ b).
  rewrite split_fuel_at_sep. cbn [prepend]. rewrite str_app_nil.
  destruct (Str2.split_fuel (String.length b) (String (ascii_of_nat 10) "") b) as [|y ys] eqn:E;
    [exfalso; exact (split_fuel_nonnil _ _ _ E)|].
  reflexivity.
Qed.

Lemma lines_single (a : string) :
  a <> "" -> Str2.has_char (ascii_of_nat 10) a = false -> Str2.lines a = [Str2.strip_cr a].
Proof.
  intros Hne Ha. unfold Str2.lines, Str2.split, nl.
  rewrite (split_fuel_join (ascii_of_nat 10) "" [a]);
    [| discriminate | constructor; [exact Ha | constructor] | cbn [Str2.join]; lia].
  cbn [Str2.drop_last_empty]. destruct a; [congruence|reflexivity].
Qed.

Lemma split_once_app (pre rhs : string) (c : ascii) :
  Str2.has_char c pre = false -> Str2.split_once (pre ++ String c rhs) c = Some (pre, rhs).
Proof.
  induction pre as [|d pre IH]; intros H; cbn [append Str2.split_once].
  - rewrite Ascii.eqb_refl. reflexivity.
  - unfold Str2.has_char in H. cbn [list_ascii_of_string existsb] in H.
    apply orb_false_iff in H as [Hd H]. rewrite Ascii.eqb_sym, Hd, IH by exact H. reflexivity.
Qed.

Lemma split_once_none (s : string) (c : ascii) :
  Str2.has_char c s = false -> Str2.split_once s c = None.
Proof.
  induction s as [|d s IH]; intros H; [reflexivity|].
  unfold Str2.has_char in H. cbn [list_ascii_of_string existsb] in H.
  apply orb_false_iff in H as [Hd H]. cbn [Str2.split_once].
  rewrite Ascii.eqb_sym, Hd, IH by exact H. reflexivity.
Qed.

Lemma has_char_app (c : ascii) (x y : string) :
  Str2.has_char c (x ++ y) = Str2.has_char c x || Str2.has_char c y.
Proof.
  unfold Str2.has_char. induction x as [|d x IH]; [reflexivity|].
  cbn [append list_ascii_of_string existsb]. rewrite IH, orb_assoc. reflexivity.
Qed.

Lemma strip_cr_app_cr (x : string) : Str2.strip_cr (x ++ String Str2.cr "") = x.
Proof.
  induction x as [|a x IH]; [reflexivity|].
  destruct x as [|b x]; [reflexivity|].
  change (Str2.strip_cr (String a (String b x) ++ String Str2.cr ""))
    with (String a (Str2.strip_cr (String b x ++ String Str2.cr ""))).
  rewrite IH. reflexivity.
Qed.

Lemma strip_cr_app (x y : string) : y <> "" -> Str2.strip_cr (x ++ y) = x ++ Str2.strip_cr y.
Proof.
  intros Hy. induction x as [|a x IH]; [reflexivity|].
  cbn [append]. destruct (x ++ y) as [|d t] eqn:E.
  - destruct x; [contradiction | discriminate].
  - change (Str2.strip_cr (String a (String d t))) with (String a (Str2.strip_cr (String d t))).
    rewrite IH. reflexivity.
Qed.

Lemma strip_cr_colon (rhs : string) :
  Str2.strip_cr rhs = rhs -> Str2.strip_cr (":" ++ rhs) = ":" ++ rhs.
Proof.
  intros H. destruct rhs as [|c r]; [reflexivity|].
  change (Str2.strip_cr (":" ++ String c r)) with (String ":" (Str2.strip_cr (String c r))).
  rewrite H. reflexivity.
Qed.

Lemma strip_cr_cases (s : string) :
  Str2.strip_cr s = s \/ s = Str2.strip_cr s ++ String Str2.cr "".
Proof.
  induction s as [|c s IH]; [left; reflexivity|].
  destruct s as [|d s].
  - cbn [Str2.strip_cr]. destruct (Ascii.eqb c Str2.cr) eqn:E; [right|left; reflexivity].
    apply Ascii.eqb_eq in E. subst. reflexivity.
  - change (Str2.strip_cr (String c (String d s))) with (String c (Str2.strip_cr (String d s))).
    destruct IH as [IH|IH]; [left; rewrite IH; reflexivity|].
    right. cbn [append]. rewrite <- IH. reflexivity.
Qed.

Lemma starts_with_snoc (z p : string) (c : ascii) :
  Str2.has_char c p = false -> Str.starts_with (z ++ String c "") p = Str.starts_with z p.
Proof.
  revert p. induction z as [|a z IH]; intros p Hp; destruct p as [|d p]; try reflexivity;
    unfold Str2.has_char in Hp; cbn [list_ascii_of_string existsb] in Hp;
    apply orb_false_iff in Hp as [Hd Hp].
  - cbn [append Str.starts_with]. rewrite Ascii.eqb_sym, Hd. destruct p; reflexivity.
  - cbn [append Str.starts_with]. rewrite IH by exact Hp. reflexivity.
Qed.

Lemma contains_snoc (x p : string) (c : ascii) :
  Str2.has_char c p = false -> Str.contains (x ++ String c "") p = Str.contains x p.
Proof.
  intros Hp. induction x as [|a x IH].
  - destruct p as [|d p]; [reflexivity|].
    unfold Str2.has_char in Hp. cbn [list_ascii_of_string existsb] in Hp.
    apply orb_false_iff in Hp as [Hd _]. cbn. rewrite Ascii.eqb_sym, Hd. reflexivity.
  - change (Str.contains (String a x ++ String c "") p)
      with (Str.starts_with (String a x ++ String c "") p || Str.contains (x ++ String c "") p).
    rewrite starts_with_snoc, IH by exact Hp. reflexivity.
Qed.

(** The lines [parse_state] passes over: no line break, no [STATE]. *)
Lemma parse_state_cons_skip (a b : string) :
  Str2.has_char (ascii_of_nat 10) a = false -> Str.contains a "STATE" = false ->
  parse_state (a ++ nl ++ b) = parse_state b.
Proof.
  intros Hnl Hst. unfold parse_state. rewrite lines_cons by exact Hnl.
  cbn [parse_state_lines]. unfold state_of_line.
  destruct (Str.contains (Str2.strip_cr a) "STATE") eqn:E; [|reflexivity].
  destruct (strip_cr_prefix a) as [r Hr]. rewrite Hr in Hst.
  rewrite (contains_app_l _ _ _ E) in Hst. discriminate.
Qed.

Lemma parse_state_skip_lines (skipped : list string) (rest : string) :
  Forall (fun l => Str2.has_char (ascii_of_nat 10) l = false /\ Str.contains l "STATE" = false)
         skipped ->
  parse_state (Str2.join nl (skipped ++ [rest])) = parse_state rest.
Proof.
  induction skipped as [|l ls IH]; intros H; [reflexivity|].
  inversion H as [|? ? [Hnl Hst] Hls]; subst.
  cbn [List.app].
  destruct (List.app ls [rest]) as [|x xs] eqn:E; [destruct ls; discriminate|].
  change (Str2.join nl (l :: x :: xs)) with (l ++ nl ++ Str2.join nl (x :: xs)).
  rewrite parse_state_cons_skip by assumption. apply IH, Hls.
Qed.

(** X12: [parse_state] skips a first line that does not mention [STATE]. *)
Theorem parse_state_skips_line (a b : string) :
  Str2.has_char (ascii_of_nat 10) a = false -> Str.contains a "STATE" = false ->
  parse_state (a ++ nl ++ b) = parse_state b.
Proof.
  apply parse_state_cons_skip.
Qed.

Lemma parse_state_skips_line_witness :
  Str2.has_char (ascii_of_nat 10) "SERVICE_NAME: nanobot-rs" = false
  /\ parse_state ("SERVICE_NAME: nanobot-rs" ++ nl ++ "        STATE              : 4  RUNNING")
     = parse_state "        STATE              : 4  RUNNING".
Proof. split; [reflexivity | apply parse_state_skips_line; reflexivity]. Defined.

(** X13: After any number of lines without [STATE], a line mentioning
    [STATE] decides the result, whatever follows it and whether it ends in
    ["\r\n"] or ["\n"]: the first white-space token after its first colon,
    or the second one when the first is a number (the [sc query] layout
    ["STATE : 4  RUNNING"]).  Tokens are separated by Unicode white space. *)
Theorem parse_state_state_line (skipped : list string) (pre rhs b : string) (crlf : bool) :
  Forall (fun l => Str2.has_char (ascii_of_nat 10) l = false /\ Str.contains l "STATE" = false)
         skipped ->
  Str.contains (pre ++ ":" ++ rhs) "STATE" = true ->
  Str2.has_char ":" pre = false ->
  Str2.has_char (ascii_of_nat 10) (pre ++ ":" ++ rhs) = false ->
  Str2.strip_cr rhs = rhs ->
  parse_state (Str2.join nl (skipped ++
    [pre ++ ":" ++ rhs ++ (if crlf then String Str2.cr "" else "") ++ nl ++ b]))
  = state_decision rhs
  /\ parse_state (Str2.join nl (skipped ++
       [pre ++ ":" ++ rhs ++ (if crlf then String Str2.cr "" else "")]))
     = state_decision rhs.
Proof.
  intros Hskip Hst Hc Hnl Hcr.
  rewrite !parse_state_skip_lines by exact Hskip.
  set (line := pre ++ ":" ++ rhs ++ (if crlf then String Str2.cr "" else "")).
  assert (Hline : state_of_line (pre ++ ":" ++ rhs) = Some (state_decision rhs)).
  { unfold state_of_line. rewrite Hst. cbn [negb].
    change (pre ++ ":" ++ rhs) with (pre ++ String ":" rhs).
    rewrite split_once_app by exact Hc. reflexivity. }
  assert (Hstrip : Str2.strip_cr line = pre ++ ":" ++ rhs).
  { unfold line. destruct crlf.
    - rewrite (str_app_assoc ":"), (str_app_assoc pre). apply strip_cr_app_cr.
    - rewrite str_app_nil, strip_cr_app by discriminate. rewrite strip_cr_colon by exact Hcr.
      reflexivity. }
  assert (Hlnl : Str2.has_char (ascii_of_nat 10) line = false).
  { unfold line. rewrite (str_app_assoc ":"), (str_app_assoc pre), has_char_app, Hnl.
    destruct crlf; reflexivity. }
  split.
  - unfold parse_state.
    replace (pre ++ ":" ++ rhs ++ (if crlf then String Str2.cr "" else "") ++ nl ++ b)
      with (line ++ nl ++ b) by (unfold line; rewrite <- !str_app_assoc; reflexivity).
    rewrite lines_cons by exact Hlnl.
    rewrite Hstrip. cbn [parse_state_lines]. rewrite Hline. reflexivity.
  - unfold parse_state. rewrite lines_single.
    + rewrite Hstrip. cbn [parse_state_lines]. rewrite Hline. reflexivity.
    + unfold line. destruct pre; discriminate.
    + exact Hlnl.
Qed.

Lemma parse_state_state_line_witness :
  parse_state (Str2.join nl (["SERVICE_NAME: nanobot-rs";
                               "        TYPE               : 10  WIN32_OWN_PROCESS"] ++
    ["        STATE              " ++ ":" ++ (" 4" ++ Str.byte2 194 160 ++ "RUNNING")
     ++ String Str2.cr "" ++ nl ++ "        WIN32_EXIT_CODE    : 0"]))
  = Some "RUNNING".
Proof.
  rewrite (proj1 (parse_state_state_line
    ["SERVICE_NAME: nanobot-rs"; "        TYPE               : 10  WIN32_OWN_PROCESS"]
    "        STATE              " (" 4" ++ Str.byte2 194 160 ++ "RUNNING")
    "        WIN32_EXIT_CODE    : 0" true
    ltac:(repeat first [apply Forall_nil | apply Forall_cons; [split; reflexivity|]])
    eq_refl eq_refl eq_refl eq_refl)).
  reflexivity.
Defined.

(** X14: After any number of lines without [STATE], a line that mentions
    [STATE] but has no colon ends the search with [None], even when a later
    line would have matched. *)
Theorem parse_state_no_colon (skipped : list string) (line b : string) :
  Forall (fun l => Str2.has_char (ascii_of_nat 10) l = false /\ Str.contains l "STATE" = false)
         skipped ->
  Str.contains line "STATE" = true -> Str2.has_char ":" line = false ->
  Str2.has_char (ascii_of_nat 10) line = false ->
  parse_state (Str2.join nl (skipped ++ [line ++ nl ++ b])) = None
  /\ parse_state (Str2.join nl (skipped ++ [line])) = None.
Proof.
  intros Hskip Hst Hc Hnl. rewrite !parse_state_skip_lines by exact Hskip.
  assert (Hdec : state_of_line (Str2.strip_cr line) = Some None).
  { destruct (strip_cr_prefix line) as [r Hr].
    assert (Hst' : Str.contains (Str2.strip_cr line) "STATE" = true).
    { destruct (strip_cr_cases line) as [E|E]; [rewrite E; exact Hst|].
      rewrite E, contains_snoc in Hst by reflexivity. exact Hst. }
    assert (Hc' : Str2.has_char ":" (Str2.strip_cr line) = false).
    { rewrite Hr, has_char_app in Hc. apply orb_false_iff in Hc as [Hc _]. exact Hc. }
    unfold state_of_line. rewrite Hst'. cbn [negb].
    rewrite split_once_none by exact Hc'. reflexivity. }
  split.
  - unfold parse_state. rewrite lines_cons by exact Hnl.
    cbn [parse_state_lines]. rewrite Hdec. reflexivity.
  - unfold parse_state. rewrite lines_single.
    + cbn [parse_state_lines]. rewrite Hdec. reflexivity.
    + intros E. rewrite E in Hst. discriminate.
    + exact Hnl.
Qed.

Lemma parse_state_no_colon_witness :
  parse_state (Str2.join nl (["SERVICE_NAME: nanobot-rs"] ++
    ["STATE unknown" ++ String Str2.cr "" ++ nl ++ "        STATE              : 4  RUNNING"]))
  = None.
Proof.
  apply (proj1 (parse_state_no_colon ["SERVICE_NAME: nanobot-rs"]
    ("STATE unknown" ++ String Str2.cr "") "        STATE              : 4  RUNNING"
    ltac:(repeat first [apply Forall_nil | apply Forall_cons; [split; reflexivity|]])
    eq_refl eq_refl eq_refl)).
Defined.

(** ** [MemoryStore] *)

(** X18: The memory context is empty exactly when both the long-term file and
    the file of the day read as empty (missing and unreadable files read
    as empty). *)
Theorem memory_context_empty (memory_file today_file : FileState) :
  get_memory_context memory_file today_file = ""
  <-> read_file memory_file = "" /\ read_file today_file = "".
Proof.
  unfold get_memory_context.
  destruct (Str.is_empty (read_file memory_file)) eqn:Hm;
    destruct (Str.is_empty (read_file today_file)) eqn:Ht; cbn [negb List.app Str2.join].
  - apply is_empty_iff in Hm, Ht. tauto.
  - split; [discriminate|]. intros [_ H]. apply is_empty_false_iff in Ht. contradiction.
  - split; [discriminate|]. intros [H _]. apply is_empty_false_iff in Hm. contradiction.
  - split; [discriminate|]. intros [H _]. apply is_empty_false_iff in Hm. contradiction.
Qed.

(** ** Candidates of [extract_json_object] *)

Lemma scan_some (s : string) (offset depth : nat) (in_string escaped : bool) (n : nat) :
  scan s offset depth in_string escaped = Some n ->
  exists k, n = S (offset + k) /\ String.get k s = Some rbrace.
Proof.
  revert offset depth in_string escaped.
  induction s as [|c s IH]; intros offset depth in_string escaped H; [discriminate|].
  assert (Hrec : forall d i e, scan s (S offset) d i e = Some n ->
                 exists k, n = S (offset + k) /\ String.get k (String c s) = Some rbrace).
  { intros d i e Hs. destruct (IH _ _ _ _ Hs) as [k [-> Hk]].
    exists (S k). split; [lia | exact Hk]. }
  cbn [scan] in H.
  destruct in_string.
  - destruct escaped; [exact (Hrec _ _ _ H)|].
    destruct (Ascii.eqb c backslash); [exact (Hrec _ _ _ H)|].
    destruct (Ascii.eqb c dquote); exact (Hrec _ _ _ H).
  - destruct (Ascii.eqb c dquote); [exact (Hrec _ _ _ H)|].
    destruct (Ascii.eqb c lbrace); [exact (Hrec _ _ _ H)|].
    destruct (Ascii.eqb c rbrace) eqn:Hc; [|exact (Hrec _ _ _ H)].
    destruct depth as [|[|d]]; [discriminate| |exact (Hrec _ _ _ H)].
    injection H as <-. exists 0. split; [lia|].
    apply Ascii.eqb_eq in Hc. subst c. reflexivity.
Qed.

Lemma substring_last (j : nat) (t : string) (c : ascii) :
  String.get j t = Some c -> substring 0 (S j) t = substring 0 j t ++ String c "".
Proof.
  revert t. induction j as [|j IH]; intros t H; destruct t as [|d t]; try discriminate.
  - injection H as <-. destruct t; reflexivity.
  - cbn [String.get] in H. cbn [substring append]. rewrite (IH t H). reflexivity.
Qed.

Definition braced (mid : string) : string := String lbrace mid ++ String rbrace "".

Lemma scan_starts_braced (parse_json : string -> option Value) (text : string) (v : Value) :
  scan_starts parse_json text = Some v ->
  exists pre mid post, text = pre ++ braced mid ++ post
    /\ parse_json (braced mid) = Some v /\ is_object v = true.
Proof.
  induction text as [|c s IH]; cbn [scan_starts]; [discriminate|].
  assert (Hnext : scan_starts parse_json s = Some v ->
                  exists pre mid post, String c s = pre ++ braced mid ++ post
                    /\ parse_json (braced mid) = Some v /\ is_object v = true).
  { intros H. destruct (IH H) as (pre & mid & post & E & Hp & Ho).
    exists (String c pre), mid, post. rewrite E. auto. }
  destruct (Ascii.eqb c lbrace) eqn:Hl; [|exact Hnext].
  apply Ascii.eqb_eq in Hl. subst c.
  destruct (scan (String lbrace s) 0 0 false false) as [n|] eqn:Hs; [|exact Hnext].
  destruct (parse_json (substring 0 n (String lbrace s))) as [w|] eqn:Hp; [|exact Hnext].
  destruct (is_object w) eqn:Ho; [|exact Hnext].
  intros [= <-].
  destruct (scan_some _ _ _ _ _ _ Hs) as [k [-> Hk]].
  destruct k as [|j]; [discriminate Hk|].
  cbn [String.get] in Hk.
  cbn [Nat.add] in Hp |- *.
  change (substring 0 (S (S j)) (String lbrace s)) with (String lbrace (substring 0 (S j) s)) in Hp.
  rewrite (substring_last j s rbrace Hk) in Hp.
  exists "", (substring 0 j s), (substring (S j) (String.length s - S j) s).
  split; [|split; [exact Hp | exact Ho]].
  cbn [append]. unfold braced. cbn [append]. f_equal.
  rewrite <- str_app_assoc. cbn [append].
  rewrite (substring_split (S j) s) at 1.
  rewrite (substring_last j s rbrace Hk), <- str_app_assoc. reflexivity.
Qed.

(** X20: What [extract_json_object] returns is an object, parsed either from
    the whole trimmed text or from a piece of the text that starts with
    ['{'] and ends with ['}']. *)
Theorem extract_json_object_shape (parse_json : string -> option Value) (text : string) (v : Value) :
  extract_json_object parse_json text = Some v ->
  is_object v = true /\
  (parse_json (Str.trim text) = Some v
   \/ exists pre mid post, text = pre ++ braced mid ++ post /\ parse_json (braced mid) = Some v).
Proof.
  unfold extract_json_object.
  assert (Hs : scan_starts parse_json text = Some v ->
    is_object v = true /\
    (parse_json (Str.trim text) = Some v
     \/ exists pre mid post, text = pre ++ braced mid ++ post /\ parse_json (braced mid) = Some v)).
  { intros H. destruct (scan_starts_braced _ _ _ H) as (pre & mid & post & E & Hp & Ho).
    split; [exact Ho|]. right. eauto. }
  destruct (parse_json (Str.trim text)) as [w|] eqn:Hp; [|exact Hs].
  destruct (is_object w) eqn:Ho; [|exact Hs].
  intros [= <-]. auto.
Qed.

Lemma extract_json_object_shape_witness :
  extract_json_object toy_parse ("```json" ++ nl ++ toy_reply ++ nl ++ "```")
    = Some (VObject [("claims_no_tools", VBool true)])
  /\ is_object (VObject [("claims_no_tools", VBool true)]) = true.
Proof.
  assert (H : extract_json_object toy_parse ("```json" ++ nl ++ toy_reply ++ nl ++ "```")
              = Some (VObject [("claims_no_tools", VBool true)])) by reflexivity.
  split; [exact H | exact (proj1 (extract_json_object_shape _ _ _ H))].
Defined.
